(** * Oppia suggestion storage model (core/storage/suggestion/gae_models.py)

    A shallow embedding of [GeneralSuggestionModel] and of the class methods
    that create and query suggestions, together with the properties of the
    suggestion lifecycle and query engine that are checked against them. *)

From Stdlib Require Import ZArith Ascii.
From stdpp Require Import base option list gmap strings pretty fin_maps.

(** ** Module constants *)

Definition TARGET_TYPE_EXPLORATION : string := "exploration".
Definition TARGET_TYPE_QUESTION : string := "question".
Definition TARGET_TYPE_SKILL : string := "skill".
Definition TARGET_TYPE_TOPIC : string := "topic".

Definition TARGET_TYPE_CHOICES : list string :=
  [TARGET_TYPE_EXPLORATION; TARGET_TYPE_QUESTION; TARGET_TYPE_SKILL;
   TARGET_TYPE_TOPIC].

Definition STATUS_ACCEPTED : string := "accepted".
Definition STATUS_IN_REVIEW : string := "review".
Definition STATUS_REJECTED : string := "rejected".

Definition STATUS_CHOICES : list string :=
  [STATUS_ACCEPTED; STATUS_IN_REVIEW; STATUS_REJECTED].

Definition SUGGESTION_TYPE_EDIT_STATE_CONTENT : string :=
  "edit_exploration_state_content".
Definition SUGGESTION_TYPE_TRANSLATE_CONTENT : string := "translate_content".
Definition SUGGESTION_TYPE_ADD_QUESTION : string := "add_question".

Definition SUGGESTION_TYPE_CHOICES : list string :=
  [SUGGESTION_TYPE_EDIT_STATE_CONTENT; SUGGESTION_TYPE_TRANSLATE_CONTENT;
   SUGGESTION_TYPE_ADD_QUESTION].

Definition SCORE_TYPE_CONTENT : string := "content".
Definition SCORE_TYPE_TRANSLATION : string := "translation".
Definition SCORE_TYPE_QUESTION : string := "question".

Definition SCORE_TYPE_CHOICES : list string :=
  [SCORE_TYPE_CONTENT; SCORE_TYPE_TRANSLATION; SCORE_TYPE_QUESTION].

(** The delimiter to be used in the score category field: the one-character
    string ['.']. *)
Definition SCORE_CATEGORY_DELIMITER : string := ".".

Definition ALLOWED_QUERY_FIELDS : list string :=
  ["suggestion_type"; "target_type"; "target_id"; "status"; "author_id";
   "final_reviewer_id"; "score_category"].

Definition THRESHOLD_DAYS_BEFORE_ACCEPT : Z := 7.

Definition THRESHOLD_TIME_BEFORE_ACCEPT_IN_MSECS : Z :=
  THRESHOLD_DAYS_BEFORE_ACCEPT * 24 * 60 * 60 * 1000.

(** ** Values *)

(** [datetime.datetime] values are points on the microsecond time line;
    [datetime.timedelta(days, seconds, microseconds, milliseconds)] is a
    signed number of microseconds. The calendar range of Python's datetime
    (years 1 to 9999) is not modelled. *)
Definition datetime : Type := Z.
Bind Scope Z_scope with datetime.

Definition timedelta (days seconds microseconds milliseconds : Z) : Z :=
  (days * 86400 + seconds) * 1000000 + microseconds + milliseconds * 1000.

(** JSON documents, the payload of [ndb.JsonProperty] and the values of the
    dictionaries that [export_data] builds. *)
#[local] Unset Elimination Schemes.
Inductive json : Type :=
  | JNull
  | JBool (b : bool)
  | JInt (n : Z)
  | JString (s : string)
  | JList (l : list json)
  | JDict (d : list (string * json)).
#[local] Set Elimination Schemes.

(** ** The entity

    The properties the class declares: what the constructor is given. The
    entity id lives in the datastore key, not in the record.
    [final_reviewer_id] is the only string property that is not [required]. *)
Record GeneralSuggestionModel : Type := {
  suggestion_type : string;
  target_type : string;
  target_id : string;
  target_version_at_submission : Z;
  status : string;
  author_id : string;
  final_reviewer_id : option string;
  change_cmd : json;
  score_category : string
}.

(** Modelled from the spec: [base_models.BaseModel], the parent class
    (core/storage/base_model/gae_models.py), is not among the sources. The
    data model gives a stored suggestion one more attribute, [last_updated],
    a timestamp maintained by the store on every write. *)
Record StoredSuggestion : Type := {
  model :> GeneralSuggestionModel;
  last_updated : datetime
}.

(** The datastore: entities of the kind, by id. *)
Abbreviation Datastore := (gmap string StoredSuggestion).

(** An entity as a query returns it: the id of its key and its properties. *)
Abbreviation Entity := (string * StoredSuggestion)%type.

(** ** Errors

    The exceptions the methods raise. The first three are the three
    [raise Exception(...)] statements of the class, with the value their
    message is formatted with. [BadValueError] is the datastore library's
    rejection of a value: a string that is not text, that is longer than an
    indexed property may hold or that is outside the property's [choices],
    and an entity written while a required property is unset.
    [AttributeError] is what [getattr] raises on a name the class does not
    have. [WriteError] stands for the other exceptions of a write that does
    not go through: an entity that cannot be encoded, a request that the
    service refuses. *)
Inductive Error : Type :=
  | DuplicateId (instance_id : string)
  | InvalidField (field : string)
  | EmptyInput
  | BadValueError
  | AttributeError (name : string)
  | WriteError.

(** ** Computations over the datastore

    A method call reads and may write the datastore, and either returns a
    value or raises. A raised exception does not roll the datastore back. *)
Definition M (A : Type) : Type := Datastore → (Error + A) * Datastore.

#[global] Instance M_ret : MRet M := λ A x st, (inr x, st).

#[global] Instance M_bind : MBind M := λ A B f m st,
  match m st with
  | (inr x, st') => f x st'
  | (inl e, st') => (inl e, st')
  end.

Definition raise {A : Type} (e : Error) : M A := λ st, (inl e, st).

(** An exception raised by a pure step (a constructor, a comparison). *)
Definition lift {A : Type} (r : Error + A) : M A := λ st, (r, st).

(** ** The string properties *)

(** A string property of the model class: its name, its [choices] when it
    has any, and the value an entity holds for it. *)
Record StringProperty : Type := {
  _name : string;
  _choices : option (list string);
  _get_value : GeneralSuggestionModel → option string
}.

Definition suggestion_type_prop : StringProperty :=
  {| _name := "suggestion_type"; _choices := Some SUGGESTION_TYPE_CHOICES;
     _get_value := λ m, Some (suggestion_type m) |}.
Definition target_type_prop : StringProperty :=
  {| _name := "target_type"; _choices := Some TARGET_TYPE_CHOICES;
     _get_value := λ m, Some (target_type m) |}.
Definition target_id_prop : StringProperty :=
  {| _name := "target_id"; _choices := None;
     _get_value := λ m, Some (target_id m) |}.
Definition status_prop : StringProperty :=
  {| _name := "status"; _choices := Some STATUS_CHOICES;
     _get_value := λ m, Some (status m) |}.
Definition author_id_prop : StringProperty :=
  {| _name := "author_id"; _choices := None;
     _get_value := λ m, Some (author_id m) |}.
Definition final_reviewer_id_prop : StringProperty :=
  {| _name := "final_reviewer_id"; _choices := None;
     _get_value := final_reviewer_id |}.
Definition score_category_prop : StringProperty :=
  {| _name := "score_category"; _choices := None;
     _get_value := λ m, Some (score_category m) |}.

(** [getattr(cls, field)] for the string properties of the class. *)
Definition getattr (field : string) : Error + StringProperty :=
  if String.eqb field "suggestion_type" then inr suggestion_type_prop
  else if String.eqb field "target_type" then inr target_type_prop
  else if String.eqb field "target_id" then inr target_id_prop
  else if String.eqb field "status" then inr status_prop
  else if String.eqb field "author_id" then inr author_id_prop
  else if String.eqb field "final_reviewer_id" then inr final_reviewer_id_prop
  else if String.eqb field "score_category" then inr score_category_prop
  else inl (AttributeError field).

(** ** The store adapter *)

(** Modelled from the spec: [get_by_id(id) → record|absent] of the store
    adapter contract, inherited through [base_models.BaseModel]. *)
Definition get_by_id (instance_id : string) : M (option StoredSuggestion) :=
  λ st, (inr (st !! instance_id), st).

(** *** Queries

    A query is the conjunction of the filter nodes added to it. The nodes
    are the ones the class builds: [prop == value], [prop != value],
    [prop.IN(values)] on string properties and [last_updated < t]. *)
Inductive FilterNode : Type :=
  | FilterEq (p : StringProperty) (value : string)
  | FilterNe (p : StringProperty) (value : string)
  | FilterIn (p : StringProperty) (values : list string)
  | FilterLastUpdatedLt (t : datetime).

Abbreviation Query := (list FilterNode).

(** When an entity satisfies a node. *)
Definition node_holds (n : FilterNode) (e : StoredSuggestion) : Prop :=
  match n with
  | FilterEq p v => _get_value p e = Some v
  | FilterNe p v => _get_value p e ≠ Some v
  | FilterIn p vs => ∃ v, v ∈ vs ∧ _get_value p e = Some v
  | FilterLastUpdatedLt t => (last_updated e < t)%Z
  end.

#[global] Instance node_holds_dec n e : Decision (node_holds n e).
Proof.
  destruct n as [p v|p v|p vs|t]; simpl; try apply _.
  destruct (_get_value p e) as [w|].
  - destruct (decide (w ∈ vs)) as [Hin|Hout].
    + left. by exists w.
    + right. intros (v & Hv & Heq). by simplify_eq.
  - right. by intros (v & _ & ?).
Defined.

Definition query_holds (q : Query) (e : StoredSuggestion) : Prop :=
  Forall (λ n, node_holds n e) q.

#[global] Instance query_holds_dec q e : Decision (query_holds q e).
Proof. unfold query_holds. apply _. Defined.

(** [cls.query()]: the query with no filter. *)
Definition query : Query := [].

(** Modelled from the spec: [cls.get_all()] of [base_models.BaseModel], the
    global unbounded iterator over the kind, filterable like a query. *)
Definition get_all : Query := [].

(** [query.filter(node)] *)
Definition filter_ (q : Query) (n : FilterNode) : Query := q ++ [n].

(** Modelled from the spec: [fetch(limit)] of the store adapter contract:
    the entities that satisfy the query, at most [limit] of them when a
    limit is given. *)
Definition fetch (q : Query) (limit : option nat) : M (list Entity) :=
  λ st,
    let found := filter (λ e : Entity, query_holds q e.2) (map_to_list st) in
    (inr (match limit with Some n => take n found | None => found end), st).

(** *** Limits of the datastore library

    The library is not among the sources. Its limits are the ones the
    class meets: an indexed string holds at most 1500 bytes, an integer is
    stored in 64 bits. *)
Definition _MAX_STRING_LENGTH : nat := 1500.

Definition is_int64 (n : Z) : bool :=
  (- 2 ^ 63 <=? n)%Z && (n <? 2 ^ 63)%Z.

(** The byte string has no byte above 127. *)
Fixpoint is_ascii (value : string) : bool :=
  match value with
  | EmptyString => true
  | String (Ascii _ _ _ _ _ _ _ b7) rest => negb b7 && is_ascii rest
  end.

(** ** The model class and its methods *)

Section GeneralSuggestionModel.

(** [feconf.DEFAULT_QUERY_LIMIT]: the configuration module is not among the
    sources, so the limit is a parameter of the development. *)
Variable DEFAULT_QUERY_LIMIT : nat.

(** Strings are byte strings, text in UTF-8. A string property takes text
    only: a [unicode] value always is, a [str] value is when the runtime
    decodes it as UTF-8. An ASCII string always decodes; which other byte
    strings decode is the runtime's business and a parameter here. *)
Variable utf8_decodes : string → bool.

(** Whatever else makes the service refuse to write an entity under an id
    (the size of the request, a change that cannot be serialised) is
    outside the sources: a parameter too. *)
Variable write_refused : string → GeneralSuggestionModel → bool.

Definition is_text (value : string) : bool :=
  is_ascii value || utf8_decodes value.

(** The check a string property makes on every value it is given, when an
    entity is constructed and when a filter compares against it: the value
    is text, it is not longer than an indexed value may be (all the string
    properties of the class are indexed), and it is one of the [choices]
    when the property has any. *)
Definition _do_validate (p : StringProperty) (value : string) : Error + string :=
  if negb (is_text value) then inl BadValueError
  else if (_MAX_STRING_LENGTH <? String.length value)%nat then inl BadValueError
  else
    match _choices p with
    | Some choices =>
        if bool_decide (value ∈ choices) then inr value else inl BadValueError
    | None => inr value
    end.

(** The constructor, [cls(id=..., suggestion_type=..., ...)]: every string
    property validates the value it is given; [final_reviewer_id] may be
    [None], which is not validated. The integer and the JSON property take
    every value of their type. *)
Definition GeneralSuggestionModel_init
    (suggestion_type target_type target_id : string)
    (target_version_at_submission : Z) (status author_id : string)
    (final_reviewer_id : option string) (change_cmd : json)
    (score_category : string) : Error + GeneralSuggestionModel :=
  match _do_validate suggestion_type_prop suggestion_type,
        _do_validate target_type_prop target_type,
        _do_validate target_id_prop target_id,
        _do_validate status_prop status,
        _do_validate author_id_prop author_id,
        match final_reviewer_id with
        | Some reviewer => _do_validate final_reviewer_id_prop reviewer
        | None => inr EmptyString
        end,
        _do_validate score_category_prop score_category with
  | inr _, inr _, inr _, inr _, inr _, inr _, inr _ =>
      inr {| suggestion_type := suggestion_type;
             target_type := target_type;
             target_id := target_id;
             target_version_at_submission := target_version_at_submission;
             status := status;
             author_id := author_id;
             final_reviewer_id := final_reviewer_id;
             change_cmd := change_cmd;
             score_category := score_category |}
  | _, _, _, _, _, _, _ => inl BadValueError
  end.

(** Modelled from the spec: [put(record)] of the store adapter contract,
    inherited through [base_models.BaseModel]; the write stamps
    [last_updated] with the time [now] of the call. The library refuses an
    entity whose required [change_cmd] is [None], then one whose integer
    does not fit 64 bits; nothing is written then. *)
Definition put (instance_id : string) (m : GeneralSuggestionModel)
    (now : datetime) : M unit :=
  λ st,
    match change_cmd m with
    | JNull => (inl BadValueError, st)
    | _ =>
        if negb (is_int64 (target_version_at_submission m))
           || write_refused instance_id m
        then (inl WriteError, st)
        else (inr tt,
              <[instance_id := {| model := m; last_updated := now |}]> st)
    end.

(** The comparison operators of a property validate their operand. *)
Definition prop_eq (p : StringProperty) (value : string) : Error + FilterNode :=
  match _do_validate p value with
  | inr v => inr (FilterEq p v)
  | inl e => inl e
  end.

Definition prop_ne (p : StringProperty) (value : string) : Error + FilterNode :=
  match _do_validate p value with
  | inr v => inr (FilterNe p v)
  | inl e => inl e
  end.

Fixpoint validate_all (p : StringProperty) (values : list string)
    : Error + list string :=
  match values with
  | [] => inr []
  | v :: vs =>
      match _do_validate p v, validate_all p vs with
      | inr v', inr vs' => inr (v' :: vs')
      | inl e, _ => inl e
      | _, inl e => inl e
      end
  end.

Definition prop_IN (p : StringProperty) (values : list string)
    : Error + FilterNode :=
  match validate_all p values with
  | inr vs => inr (FilterIn p vs)
  | inl e => inl e
  end.

(** [create]: [now] is the time at which the entity is written. *)
Definition create
    (suggestion_type target_type target_id : string)
    (target_version_at_submission : Z) (status author_id : string)
    (final_reviewer_id : option string) (change_cmd : json)
    (score_category thread_id : string) (now : datetime) : M unit :=
  let instance_id := thread_id in
  existing ← get_by_id instance_id;
  match existing with
  | Some _ => raise (DuplicateId instance_id)
  | None =>
      instance ← lift (GeneralSuggestionModel_init
                         suggestion_type target_type target_id
                         target_version_at_submission status author_id
                         final_reviewer_id change_cmd score_category);
      put instance_id instance now
  end.

(** The loop of [query_suggestions], from the query built so far. *)
Fixpoint query_suggestions_loop (query : Query)
    (query_fields_and_values : list (string * string)) : M Query :=
  match query_fields_and_values with
  | [] => mret query
  | (field, value) :: rest =>
      if bool_decide (field ∈ ALLOWED_QUERY_FIELDS) then
        p ← lift (getattr field);
        node ← lift (prop_eq p value);
        query_suggestions_loop (filter_ query node) rest
      else raise (InvalidField field)
  end.

Definition query_suggestions
    (query_fields_and_values : list (string * string)) : M (list Entity) :=
  q ← query_suggestions_loop query query_fields_and_values;
  fetch q (Some DEFAULT_QUERY_LIMIT).

(** [get_all_stale_suggestions]: the method reads the module variable
    [THRESHOLD_TIME_BEFORE_ACCEPT_IN_MSECS] (which the tests swap) and the
    clock; both are arguments here. *)
Definition get_all_stale_suggestions
    (threshold_time_before_accept_in_msecs : Z) (utcnow : datetime)
    : M (list Entity) :=
  let threshold_time :=
    (utcnow - timedelta 0 0 0 threshold_time_before_accept_in_msecs)%Z in
  in_review ← lift (prop_eq status_prop STATUS_IN_REVIEW);
  fetch (filter_ (filter_ get_all in_review)
                 (FilterLastUpdatedLt threshold_time)) None.

Definition get_in_review_suggestions_in_score_categories
    (score_categories : list string) (user_id : string) : M (list Entity) :=
  if decide (length score_categories = 0) then raise EmptyInput
  else
    in_review ← lift (prop_eq status_prop STATUS_IN_REVIEW);
    in_categories ← lift (prop_IN score_category_prop score_categories);
    not_author ← lift (prop_ne author_id_prop user_id);
    fetch (filter_ (filter_ (filter_ get_all in_review) in_categories)
                   not_author)
          (Some DEFAULT_QUERY_LIMIT).

Definition get_in_review_suggestions_of_suggestion_type
    (suggestion_type user_id : string) : M (list Entity) :=
  in_review ← lift (prop_eq status_prop STATUS_IN_REVIEW);
  of_type ← lift (prop_eq suggestion_type_prop suggestion_type);
  not_author ← lift (prop_ne author_id_prop user_id);
  fetch (filter_ (filter_ (filter_ get_all in_review) of_type) not_author)
        (Some DEFAULT_QUERY_LIMIT).

Definition get_user_created_suggestions_of_suggestion_type
    (suggestion_type user_id : string) : M (list Entity) :=
  in_review ← lift (prop_eq status_prop STATUS_IN_REVIEW);
  of_type ← lift (prop_eq suggestion_type_prop suggestion_type);
  by_author ← lift (prop_eq author_id_prop user_id);
  fetch (filter_ (filter_ (filter_ get_all in_review) of_type) by_author)
        (Some DEFAULT_QUERY_LIMIT).

(** The dictionary [export_data] stores for one suggestion. *)
Definition export_entry (suggestion_model : StoredSuggestion)
    : gmap string json :=
  list_to_map
    [("suggestion_type", JString (suggestion_type suggestion_model));
     ("target_type", JString (target_type suggestion_model));
     ("target_id", JString (target_id suggestion_model));
     ("target_version_at_submission",
      JInt (target_version_at_submission suggestion_model));
     ("status", JString (status suggestion_model));
     ("change_cmd", change_cmd suggestion_model)].

Definition export_data (user_id : string)
    : M (gmap string (gmap string json)) :=
  by_author ← lift (prop_eq author_id_prop user_id);
  suggestion_models ← fetch (filter_ get_all by_author) None;
  mret (foldl (λ (user_data : gmap string (gmap string json))
                 (suggestion_model : Entity),
                <[suggestion_model.1 := export_entry suggestion_model.2]>
                  user_data)
              ∅ suggestion_models).

(** [ndb.OR(node1, node2)]: an entity satisfies the disjunction when it
    satisfies one of the nodes. *)
Definition OR_holds (node1 node2 : FilterNode) (e : StoredSuggestion) : Prop :=
  node_holds node1 e ∨ node_holds node2 e.

#[global] Instance OR_holds_dec node1 node2 e :
  Decision (OR_holds node1 node2 e).
Proof. unfold OR_holds. apply _. Defined.

(** [cls.query(node).get()]: the first entity the query finds, or [None]. *)
Definition query_get (holds : StoredSuggestion → Prop)
    `{!∀ e, Decision (holds e)} : M (option Entity) :=
  λ st, (inr (head (filter (λ kv : Entity, holds kv.2) (map_to_list st))), st).

Definition has_reference_to_user_id (user_id : string) : M bool :=
  by_author ← lift (prop_eq author_id_prop user_id);
  by_reviewer ← lift (prop_eq final_reviewer_id_prop user_id);
  found ← query_get (OR_holds by_author by_reviewer);
  mret (bool_decide (found ≠ None)).

(** [get_all_score_categories]: the projection query on [score_category]
    with [distinct=True] yields one result for each value that occurs; the
    order of the results is the store's own and is not modelled. *)
Definition get_all_score_categories : M (list string) :=
  λ st,
    (inr (remove_dups
            ((λ data : Entity, score_category data.2) <$> map_to_list st)),
     st).

(** ** Vocabulary of the statements *)

(** The entities a call returns; none when it raises. *)
Definition returned {A : Type} (x : (Error + list A) * Datastore) : list A :=
  match x.1 with
  | inr r => r
  | inl _ => []
  end.

(** [r] is what a query for the entities satisfying [P] may return under
    [limit]: entities of the store, each once, all satisfying [P], and as
    many of them as the limit allows. *)
Definition selects (limit : option nat) (P : StoredSuggestion → Prop)
    `{!∀ e, Decision (P e)} (st : Datastore) (r : list Entity) : Prop :=
  NoDup r.*1 ∧
  (∀ id e, (id, e) ∈ r → st !! id = Some e ∧ P e) ∧
  length r =
    match limit with
    | Some n => n `min` size (filter (λ kv : Entity, P kv.2) st)
    | None => size (filter (λ kv : Entity, P kv.2) st)
    end.

(** A value that an indexed string property holds: text of at most
    [_MAX_STRING_LENGTH] bytes. *)
Definition indexable (value : string) : Prop :=
  is_text value = true ∧ String.length value ≤ _MAX_STRING_LENGTH.

#[global] Instance indexable_dec value : Decision (indexable value).
Proof. unfold indexable. apply _. Defined.

(** The choices of a field, when it has any. *)
Definition choices_of (field : string) : option (list string) :=
  if decide (field = "suggestion_type") then Some SUGGESTION_TYPE_CHOICES
  else if decide (field = "target_type") then Some TARGET_TYPE_CHOICES
  else if decide (field = "status") then Some STATUS_CHOICES
  else None.

(** The values a field accepts, in the constructor and in a comparison:
    the indexable strings, among the choices of the field when it has
    any. *)
Definition accepted_value (field value : string) : Prop :=
  indexable value
  ∧ match choices_of field with
    | Some choices => value ∈ choices
    | None => True
    end.

#[global] Instance accepted_value_dec field value :
  Decision (accepted_value field value).
Proof. unfold accepted_value. destruct (choices_of field); apply _. Defined.

(** The entities the constructor builds: each string property holds a
    value it accepts. *)
Definition constructible (m : GeneralSuggestionModel) : Prop :=
  accepted_value "suggestion_type" (suggestion_type m)
  ∧ accepted_value "target_type" (target_type m)
  ∧ accepted_value "target_id" (target_id m)
  ∧ accepted_value "status" (status m)
  ∧ accepted_value "author_id" (author_id m)
  ∧ match final_reviewer_id m with
    | Some reviewer => accepted_value "final_reviewer_id" reviewer
    | None => True
    end
  ∧ accepted_value "score_category" (score_category m).

#[global] Instance constructible_dec m : Decision (constructible m).
Proof.
  unfold constructible. destruct (final_reviewer_id m); apply _.
Defined.

(** In review, in one of the categories, and not written by the user. *)
Definition reviewable (score_categories : list string) (user_id : string)
    (e : StoredSuggestion) : Prop :=
  status e = STATUS_IN_REVIEW ∧ score_category e ∈ score_categories
  ∧ author_id e ≠ user_id.

#[global] Instance reviewable_dec cs u e : Decision (reviewable cs u e).
Proof. unfold reviewable. apply _. Defined.

(** In review and last written more than [threshold] milliseconds before
    [now] (timestamps count microseconds). *)
Definition stale (threshold_msecs : Z) (now : datetime)
    (e : StoredSuggestion) : Prop :=
  status e = STATUS_IN_REVIEW
  ∧ (now - last_updated e > threshold_msecs * 1000)%Z.

#[global] Instance stale_dec thr now e : Decision (stale thr now e).
Proof. unfold stale. apply _. Defined.

(** The keys of an exported suggestion. *)
Definition EXPORTED_KEYS : gset string :=
  list_to_set ["suggestion_type"; "target_type"; "target_id";
               "target_version_at_submission"; "status"; "change_cmd"].

(** The value an entity holds for a field, by the field's name. *)
Definition field_value (field : string) (m : GeneralSuggestionModel)
    : option string :=
  if decide (field = "suggestion_type") then Some (suggestion_type m)
  else if decide (field = "target_type") then Some (target_type m)
  else if decide (field = "target_id") then Some (target_id m)
  else if decide (field = "status") then Some (status m)
  else if decide (field = "author_id") then Some (author_id m)
  else if decide (field = "final_reviewer_id") then final_reviewer_id m
  else if decide (field = "score_category") then Some (score_category m)
  else None.

(** The conjunction of the equality tests [field == value]. *)
Definition satisfies (query_fields_and_values : list (string * string))
    (e : StoredSuggestion) : Prop :=
  Forall (λ fv : string * string, field_value fv.1 e = Some fv.2)
         query_fields_and_values.

#[global] Instance satisfies_dec qfv e : Decision (satisfies qfv e).
Proof. unfold satisfies. apply _. Defined.

(** A pair the loop takes in: an allowed field with a value the field
    accepts. *)
Definition admissible (fv : string * string) : Prop :=
  fv.1 ∈ ALLOWED_QUERY_FIELDS ∧ accepted_value fv.1 fv.2.

#[global] Instance admissible_dec fv : Decision (admissible fv).
Proof. unfold admissible. apply _. Defined.

(** Python's [sub in s] on strings. *)
Fixpoint str_in (sub s : string) : bool :=
  String.prefix sub s
  || match s with
     | EmptyString => false
     | String _ s' => str_in sub s'
     end.

(** Python's [s.split(sep)] for a separator of one character. *)
Fixpoint split (sep : Ascii.ascii) (s : string) : list string :=
  match s with
  | EmptyString => [EmptyString]
  | String c s' =>
      if Ascii.eqb c sep then EmptyString :: split sep s'
      else match split sep s' with
           | x :: xs => String c x :: xs
           | [] => [String c EmptyString]
           end
  end.

(** The character of [SCORE_CATEGORY_DELIMITER]. *)
Definition delimiter_char : Ascii.ascii := "."%char.

(** The first component of a score category split on the delimiter,
    [score_category.split(SCORE_CATEGORY_DELIMITER)[0]]. The class itself
    never splits a score category; this is the reading in which the data
    model states the shape of the field. *)
Definition score_type_of (score_category : string) : string :=
  default EmptyString (head (split delimiter_char score_category)).

(** The score category of every stored suggestion starts with a score
    type. *)
Definition score_categories_typed (st : Datastore) : Prop :=
  ∀ id (e : StoredSuggestion),
    st !! id = Some e → score_type_of (score_category e) ∈ SCORE_TYPE_CHOICES.

(** In review and of the given suggestion type. *)
Definition in_review_of_type (suggestion_type' : string)
    (e : StoredSuggestion) : Prop :=
  status e = STATUS_IN_REVIEW ∧ suggestion_type e = suggestion_type'.

#[global] Instance in_review_of_type_dec ty e :
  Decision (in_review_of_type ty e).
Proof. unfold in_review_of_type. apply _. Defined.

(** In review, of the type, and not written by the user. *)
Definition reviewable_of_type (suggestion_type' user_id : string)
    (e : StoredSuggestion) : Prop :=
  in_review_of_type suggestion_type' e ∧ author_id e ≠ user_id.

#[global] Instance reviewable_of_type_dec ty u e :
  Decision (reviewable_of_type ty u e).
Proof. unfold reviewable_of_type. apply _. Defined.

(** In review, of the type, and written by the user. *)
Definition created_of_type (suggestion_type' user_id : string)
    (e : StoredSuggestion) : Prop :=
  in_review_of_type suggestion_type' e ∧ author_id e = user_id.

#[global] Instance created_of_type_dec ty u e :
  Decision (created_of_type ty u e).
Proof. unfold created_of_type. apply _. Defined.

(** The suggestion refers to the user, as author or as final reviewer. *)
Definition refers_to (user_id : string) (e : StoredSuggestion) : Prop :=
  author_id e = user_id ∨ final_reviewer_id e = Some user_id.

#[global] Instance refers_to_dec u e : Decision (refers_to u e).
Proof. unfold refers_to. apply _. Defined.

(** A computation that leaves the datastore as it found it, whether it
    returns or raises. *)
Definition read_only {A : Type} (m : M A) : Prop :=
  ∀ st : Datastore, (m st).2 = st.

(** ** The suggestions of the unit tests *)

Definition test_now : datetime := 1000.

Definition test_score_category : string :=
  SCORE_TYPE_TRANSLATION +:+ SCORE_CATEGORY_DELIMITER +:+ "English".

(** The setting of the tests: the values are [unicode] strings, which
    always are text, and the service refuses no write. *)
Definition unicode_values : string → bool := λ _, true.

Definition no_refusal : string → GeneralSuggestionModel → bool :=
  λ _ _, false.

(** A suggestion as the tests create them, written at [test_now]. *)
Definition test_suggestion (status author reviewer : string)
    : StoredSuggestion :=
  {| model := {| suggestion_type := SUGGESTION_TYPE_EDIT_STATE_CONTENT;
                 target_type := TARGET_TYPE_EXPLORATION;
                 target_id := "exp1";
                 target_version_at_submission := 1;
                 status := status;
                 author_id := author;
                 final_reviewer_id := Some reviewer;
                 change_cmd := JDict [];
                 score_category := test_score_category |};
     last_updated := test_now |}.

(** The store after [setUp] of [SuggestionModelUnitTests]: the five
    suggestions it creates. *)
Definition setUp : Datastore :=
  list_to_map
    [("exploration.exp1.thread_1",
      test_suggestion STATUS_IN_REVIEW "author_1" "reviewer_1");
     ("exploration.exp1.thread_2",
      test_suggestion STATUS_ACCEPTED "author_2" "reviewer_2");
     ("exploration.exp1.thread_3",
      test_suggestion STATUS_ACCEPTED "author_2" "reviewer_2");
     ("exploration.exp1.thread_4",
      test_suggestion STATUS_REJECTED "author_2" "reviewer_3");
     ("exploration.exp1.thread_5",
      test_suggestion STATUS_REJECTED "author_3" "reviewer_2")].

(** A suggestion in review, by [author], last written at [t]. *)
Definition in_review_suggestion (author : string) (t : datetime)
    : StoredSuggestion :=
  {| model := {| suggestion_type := SUGGESTION_TYPE_EDIT_STATE_CONTENT;
                 target_type := TARGET_TYPE_EXPLORATION;
                 target_id := "exp1";
                 target_version_at_submission := 1;
                 status := STATUS_IN_REVIEW;
                 author_id := author;
                 final_reviewer_id := None;
                 change_cmd := JDict [];
                 score_category := test_score_category |};
     last_updated := t |}.

(** A store of [n] suggestions in review by one author, all written at
    time 0, under the ids "0", "1", ... *)
Definition many_suggestions (n : nat) : Datastore :=
  list_to_map ((λ i : nat, (pretty i, in_review_suggestion "author_1" 0))
                 <$> seq 0 n).

(** A store with one suggestion in review, written at time 0. *)
Definition one_in_review : Datastore :=
  {[ "exploration.exp1.thread_1" := in_review_suggestion "author_1" 0 ]}.

(** The filter lists of [test_query_suggestions]. *)
Definition queries_by_target_author_status : list (string * string) :=
  [("target_type", TARGET_TYPE_EXPLORATION); ("target_id", "exp1");
   ("author_id", "author_2"); ("status", STATUS_ACCEPTED)].

Definition queries_with_invalid_field : list (string * string) :=
  [("target_type", TARGET_TYPE_EXPLORATION); ("target_id", "exp1");
   ("invalid_field", "value")].

(** The suggestion that [test_create_new_object_succesfully] creates. *)
Definition thread_6 : StoredSuggestion :=
  test_suggestion STATUS_IN_REVIEW "author_3" "reviewer_3".

(** The store of the tests after that creation. *)
Definition after_thread_6 : Datastore :=
  <["exploration.exp1.thread_6" := thread_6]> setUp.

(** A string of 1501 bytes. *)
Definition long_value : string :=
  String.string_of_list_ascii (replicate 1501 "a"%char).

(** ** The branch cutting script (scripts/cut_release_or_hotfix_branch.py) *)

(** The ways the checks of the script fail: the [ArgumentTypeError] of
    [new_version_type]; the two exceptions of
    [_verify_target_branch_does_not_already_exist]; the two exceptions and
    the assertions of
    [_verify_target_version_is_consistent_with_latest_released_version];
    and the attribute error of calling [group] on the [None] that
    [re.match] returns for a string it does not match. *)
Inductive ScriptError : Type :=
  | ArgumentTypeError
  | BranchExistsLocally (branch : string)
  | BranchExistsOnRemote
  | FetchFailed
  | UnparsableLatestRelease
  | AssertionError
  | NoneHasNoGroup.

(** The regular expression class [\d] on byte strings. *)
Definition is_digit (c : ascii) : bool :=
  (48 <=? nat_of_ascii c)%nat && (nat_of_ascii c <=? 57)%nat.

(** [int(c)] for a digit [c]. *)
Definition int_of_digit (c : ascii) : Z := Z.of_nat (nat_of_ascii c) - 48.

(** [re.match(r'(\d)\.(\d)\.(\d)', s)]: the three groups when [s] starts
    with a digit, a dot, a digit, a dot and a digit; what follows is not
    looked at. *)
Definition match_version (s : string) : option (ascii * ascii * ascii) :=
  match s with
  | String a (String dot1 (String b (String dot2 (String c _)))) =>
      if is_digit a && Ascii.eqb dot1 "." && is_digit b
         && Ascii.eqb dot2 "." && is_digit c
      then Some (a, b, c)
      else None
  | _ => None
  end.

(** [re.match(r'v(\d)\.(\d)\.(\d)', s)] *)
Definition match_tag (s : string) : option (ascii * ascii * ascii) :=
  match s with
  | String v rest => if Ascii.eqb v "v" then match_version rest else None
  | EmptyString => None
  end.

(** [new_version_type], with its default pattern. *)
Definition new_version_type (arg : string) : ScriptError + string :=
  match match_version arg with
  | Some _ => inr arg
  | None => inl ArgumentTypeError
  end.

(** [_verify_target_version_is_consistent_with_latest_released_version]:
    the status code of the response from GitHub and the [tag_name] of its
    body are arguments, as is the module variable [TARGET_VERSION]. *)
Definition _verify_target_version_is_consistent_with_latest_released_version
    (getcode : Z) (latest_release_tag_name TARGET_VERSION : string)
    : ScriptError + unit :=
  if decide (getcode ≠ 200%Z) then inl FetchFailed
  else
    match match_tag latest_release_tag_name with
    | None => inl UnparsableLatestRelease
    | Some (prev_major, prev_minor, prev_patch) =>
        match match_version TARGET_VERSION with
        | None => inl NoneHasNoGroup
        | Some (curr_major, curr_minor, curr_patch) =>
            if negb (Ascii.eqb prev_major curr_major) then inl AssertionError
            else if Ascii.eqb prev_minor curr_minor then
              if negb (int_of_digit curr_patch
                       =? int_of_digit prev_patch + 1)%Z
              then inl AssertionError
              else if negb (int_of_digit curr_patch <? 10)%Z
                   then inl AssertionError
                   else inr tt
            else
              if negb (int_of_digit curr_minor
                       =? int_of_digit prev_minor + 1)%Z
              then inl AssertionError
              else if negb (int_of_digit curr_patch =? 0)%Z
                   then inl AssertionError
                   else inr tt
        end
    end.

Section release_constants.

(** [release_constants.RELEASE_BRANCH_TYPE] and
    [release_constants.HOTFIX_BRANCH_TYPE]: the module is not among the
    sources, so the two names are parameters. *)
Variables RELEASE_BRANCH_TYPE HOTFIX_BRANCH_TYPE : string.

(** The module variables [NEW_BRANCH_NAME] and [NEW_BRANCH_TYPE], from the
    target version and the hotfix number. *)
Definition NEW_BRANCH_NAME (TARGET_VERSION : string) (HOTFIX_NUMBER : Z)
    : string :=
  if decide (HOTFIX_NUMBER = 0%Z)
  then RELEASE_BRANCH_TYPE +:+ "-" +:+ TARGET_VERSION
  else RELEASE_BRANCH_TYPE +:+ "-" +:+ TARGET_VERSION +:+ "-"
       +:+ HOTFIX_BRANCH_TYPE +:+ "-" +:+ pretty HOTFIX_NUMBER.

Definition NEW_BRANCH_TYPE (HOTFIX_NUMBER : Z) : string :=
  if decide (HOTFIX_NUMBER = 0%Z) then RELEASE_BRANCH_TYPE
  else HOTFIX_BRANCH_TYPE.


(** [branch_to_check] of [_execute_branch_cut]: the branch whose checks the
    release coordinator is asked about. *)
Definition branch_to_check (TARGET_VERSION : string) (HOTFIX_NUMBER : Z)
    : string :=
  if decide (HOTFIX_NUMBER = 0%Z) then "develop"
  else if decide (HOTFIX_NUMBER = 1%Z)
  then RELEASE_BRANCH_TYPE +:+ "-" +:+ TARGET_VERSION
  else RELEASE_BRANCH_TYPE +:+ "-" +:+ TARGET_VERSION +:+ "-"
       +:+ HOTFIX_BRANCH_TYPE +:+ "-" +:+ pretty (HOTFIX_NUMBER - 1)%Z.

(** [branch_to_cut_from] of [_execute_branch_cut], computed when the new
    branch is a hotfix branch. *)
Definition branch_to_cut_from (TARGET_VERSION : string) (HOTFIX_NUMBER : Z)
    : string :=
  if decide (HOTFIX_NUMBER = 1%Z)
  then RELEASE_BRANCH_TYPE +:+ "-" +:+ TARGET_VERSION
  else RELEASE_BRANCH_TYPE +:+ "-" +:+ TARGET_VERSION +:+ "-"
       +:+ HOTFIX_BRANCH_TYPE +:+ "-" +:+ pretty (HOTFIX_NUMBER - 1)%Z.

End release_constants.

(** The string [a.b.c] followed by [rest]. *)
Definition dotted (a b c : ascii) (rest : string) : string :=
  String a (String "." (String b (String "." (String c rest)))).

(** ** Running computations *)

Ltac run :=
  unfold mbind, M_bind, mret, M_ret, lift, raise, get_by_id, put, fetch;
  simpl.

Lemma bind_inr {A B : Type} (m : M A) (f : A → M B) st x st' :
  m st = (inr x, st') → (m ≫= f) st = f x st'.
Proof. intros H. unfold mbind, M_bind. by rewrite H. Qed.

Lemma bind_inl {A B : Type} (m : M A) (f : A → M B) st e st' :
  m st = (inl e, st') → (m ≫= f) st = (inl e, st').
Proof. intros H. unfold mbind, M_bind. by rewrite H. Qed.

(** ** The store adapter's queries *)

Section fetch.
Context (P : StoredSuggestion → Prop) `{!∀ e, Decision (P e)}.

Lemma found_elem_of (st : Datastore) id e :
  (id, e) ∈ filter (λ kv : Entity, P kv.2) (map_to_list st)
  ↔ st !! id = Some e ∧ P e.
Proof.
  rewrite list_elem_of_filter, elem_of_map_to_list. simpl. apply and_comm.
Qed.

Lemma found_NoDup_fst (st : Datastore) :
  NoDup (filter (λ kv : Entity, P kv.2) (map_to_list st)).*1.
Proof.
  eapply sublist_NoDup; [apply (NoDup_fst_map_to_list st)|].
  apply fmap_sublist, sublist_filter; apply _.
Qed.

Lemma found_length (st : Datastore) :
  length (filter (λ kv : Entity, P kv.2) (map_to_list st))
  = size (filter (λ kv : Entity, P kv.2) st).
Proof.
  rewrite <- length_map_to_list. apply Permutation_length.
  apply NoDup_Permutation.
  - apply NoDup_filter, NoDup_map_to_list.
  - apply NoDup_map_to_list.
  - intros [id e]. rewrite found_elem_of, elem_of_map_to_list.
    by rewrite map_lookup_filter_Some.
Qed.

Lemma selects_found limit (st : Datastore) :
  selects limit P st
    (let found := filter (λ kv : Entity, P kv.2) (map_to_list st) in
     match limit with Some n => take n found | None => found end).
Proof.
  simpl. destruct limit as [n|]; (split; [|split]).
  - eapply sublist_NoDup; [apply found_NoDup_fst|].
    apply fmap_sublist, sublist_take.
  - intros id e Hr. apply found_elem_of. by eapply subseteq_take.
  - by rewrite length_take, found_length.
  - apply found_NoDup_fst.
  - intros id e Hr. by apply found_elem_of.
  - apply found_length.
Qed.

(** A selection that the limit does not cut short misses nothing. *)
Lemma selects_complete limit (st : Datastore) r id e :
  selects limit P st r →
  match limit with
  | Some n => size (filter (λ kv : Entity, P kv.2) st) ≤ n
  | None => True
  end →
  st !! id = Some e → P e → (id, e) ∈ r.
Proof.
  intros (Hnd & Hin & Hlen) Hle Hst HP.
  assert (length r = length (map_to_list (filter (λ kv : Entity, P kv.2) st)))
    as Hlen'.
  { rewrite length_map_to_list, Hlen. destruct limit; lia. }
  assert (r ⊆+ map_to_list (filter (λ kv : Entity, P kv.2) st)) as Hsub.
  { apply NoDup_submseteq; [by eapply NoDup_fmap_1|].
    intros [i x] Hx. apply elem_of_map_to_list, map_lookup_filter_Some.
    simpl. by apply Hin. }
  apply submseteq_length_Permutation in Hsub; [|lia].
  rewrite Hsub. apply elem_of_map_to_list, map_lookup_filter_Some. done.
Qed.
End fetch.

Lemma selects_iff limit (P Q : StoredSuggestion → Prop)
    `{!∀ e, Decision (P e)} `{!∀ e, Decision (Q e)} (st : Datastore) r :
  (∀ e, P e ↔ Q e) → selects limit P st r → selects limit Q st r.
Proof.
  intros HPQ (Hnd & Hin & Hlen). split; [done|]. split.
  - intros id e Hr. destruct (Hin id e Hr). split; [done|]. by apply HPQ.
  - rewrite Hlen.
    assert (filter (λ kv : Entity, P kv.2) st = filter (λ kv : Entity, Q kv.2) st)
      as ->; [|done].
    apply map_filter_ext. intros i x _. simpl. apply HPQ.
  Qed.

Lemma fetch_selects (q : Query) limit (st : Datastore) :
  ∃ r, fetch q limit st = (inr r, st) ∧ selects limit (query_holds q) st r.
Proof.
  eexists. split; [reflexivity|]. apply (selects_found (query_holds q)).
Qed.

(** ** Validation *)

Lemma do_validate_inr p value :
  indexable value →
  match _choices p with Some choices => value ∈ choices | None => True end →
  _do_validate p value = inr value.
Proof.
  unfold _do_validate, indexable. intros [-> Hlen] Hin. simpl.
  rewrite (proj2 (Nat.ltb_ge _ _) Hlen).
  destruct (_choices p) as [choices|]; [|done].
  by rewrite bool_decide_eq_true_2.
Qed.

Lemma do_validate_inl p value :
  ¬ (indexable value
     ∧ match _choices p with Some choices => value ∈ choices | None => True end) →
  _do_validate p value = inl BadValueError.
Proof.
  unfold _do_validate, indexable. intros Hnot.
  destruct (is_text value) eqn:Htext; simpl; [|done].
  destruct (_MAX_STRING_LENGTH <? String.length value)%nat eqn:Hlen; [done|].
  apply Nat.ltb_ge in Hlen.
  destruct (_choices p) as [choices|].
  - case_bool_decide; [|done]. by destruct Hnot.
  - by destruct Hnot.
Qed.

Lemma do_validate_cases p value :
  _do_validate p value = inr value ∨ _do_validate p value = inl BadValueError.
Proof.
  unfold _do_validate.
  destruct (negb (is_text value)); [by right|].
  destruct (_MAX_STRING_LENGTH <? String.length value)%nat; [by right|].
  destruct (_choices p); [|by left].
  case_bool_decide; [by left|by right].
Qed.

Lemma do_validate_inv p value v :
  _do_validate p value = inr v →
  v = value ∧ indexable value
  ∧ match _choices p with Some choices => value ∈ choices | None => True end.
Proof.
  unfold _do_validate, indexable.
  destruct (is_text value) eqn:Htext; simpl; [|done].
  destruct (_MAX_STRING_LENGTH <? String.length value)%nat eqn:Hlen; [done|].
  apply Nat.ltb_ge in Hlen.
  destruct (_choices p) as [choices|].
  - case_bool_decide; [|done]. by intros [= <-].
  - by intros [= <-].
Qed.

Lemma validate_all_inr p values :
  _choices p = None → Forall indexable values →
  validate_all p values = inr values.
Proof.
  intros Hp. induction 1 as [|v vs Hv _ IH]; [done|]. simpl.
  rewrite IH, do_validate_inr; [done..|]. by rewrite Hp.
Qed.

Lemma validate_all_inl p values :
  ¬ Forall indexable values → validate_all p values = inl BadValueError.
Proof.
  induction values as [|v vs IH]; intros Hnot.
  - destruct Hnot. constructor.
  - simpl. destruct (do_validate_cases p v) as [Hv|Hv]; rewrite Hv; [|done].
    rewrite IH; [done|]. intros Hvs. apply Hnot. constructor; [|done].
    by apply do_validate_inv in Hv as (_ & ? & _).
Qed.

Lemma accepted_do_validate field p value :
  _choices p = choices_of field → accepted_value field value →
  _do_validate p value = inr value.
Proof. intros Hp [Hidx Hin]. apply do_validate_inr; [done|]. by rewrite Hp. Qed.

Lemma rejected_do_validate field p value :
  _choices p = choices_of field → ¬ accepted_value field value →
  _do_validate p value = inl BadValueError.
Proof.
  intros Hp Hrej. apply do_validate_inl. rewrite Hp. exact Hrej.
Qed.

Lemma do_validate_accepted field p value v :
  _choices p = choices_of field → _do_validate p value = inr v →
  accepted_value field value.
Proof.
  intros Hp (_ & Hidx & Hin)%do_validate_inv. split; [done|]. by rewrite <- Hp.
Qed.

(** The members of the choices are short ASCII strings. *)
Lemma choices_indexable field choices value :
  choices_of field = Some choices → value ∈ choices → indexable value.
Proof.
  unfold choices_of. repeat case_decide; intros [= <-];
    unfold SUGGESTION_TYPE_CHOICES, TARGET_TYPE_CHOICES, STATUS_CHOICES;
    rewrite !elem_of_cons, elem_of_nil; intros Hin;
    repeat (destruct Hin as [->|Hin];
            [split; [reflexivity|unfold _MAX_STRING_LENGTH; simpl; lia]|]);
    done.
Qed.

Lemma init_constructible sty tty tid tv sts aid frid cc sc :
  let m := {| suggestion_type := sty; target_type := tty; target_id := tid;
              target_version_at_submission := tv; status := sts;
              author_id := aid; final_reviewer_id := frid; change_cmd := cc;
              score_category := sc |} in
  GeneralSuggestionModel_init sty tty tid tv sts aid frid cc sc
  = if decide (constructible m) then inr m else inl BadValueError.
Proof.
  intros m. unfold GeneralSuggestionModel_init.
  destruct (decide (constructible m)) as [Hm|Hm].
  - destruct Hm as (H1 & H2 & H3 & H4 & H5 & H6 & H7). simpl in *.
    rewrite (accepted_do_validate "suggestion_type"),
      (accepted_do_validate "target_type"),
      (accepted_do_validate "target_id"),
      (accepted_do_validate "status"),
      (accepted_do_validate "author_id"),
      (accepted_do_validate "score_category") by done.
    destruct frid as [reviewer|]; [|done].
    by rewrite (accepted_do_validate "final_reviewer_id") by done.
  - destruct (_do_validate suggestion_type_prop sty) as [|v1] eqn:E1; [done|].
    destruct (_do_validate target_type_prop tty) as [|v2] eqn:E2; [done|].
    destruct (_do_validate target_id_prop tid) as [|v3] eqn:E3; [done|].
    destruct (_do_validate status_prop sts) as [|v4] eqn:E4; [done|].
    destruct (_do_validate author_id_prop aid) as [|v5] eqn:E5; [done|].
    destruct (match frid with
              | Some reviewer => _do_validate final_reviewer_id_prop reviewer
              | None => inr EmptyString
              end) as [|v6] eqn:E6; [done|].
    destruct (_do_validate score_category_prop sc) as [|v7] eqn:E7; [done|].
    destruct Hm.
    refine (conj _ (conj _ (conj _ (conj _ (conj _ (conj _ _)))))); simpl.
    + by apply (do_validate_accepted "suggestion_type" suggestion_type_prop _ _
                    eq_refl E1).
    + by apply (do_validate_accepted "target_type" target_type_prop _ _
                    eq_refl E2).
    + by apply (do_validate_accepted "target_id" target_id_prop _ _
                    eq_refl E3).
    + by apply (do_validate_accepted "status" status_prop _ _
                    eq_refl E4).
    + by apply (do_validate_accepted "author_id" author_id_prop _ _
                    eq_refl E5).
    + destruct frid as [reviewer|]; [|done].
      by apply (do_validate_accepted "final_reviewer_id"
                  final_reviewer_id_prop _ _ eq_refl E6).
    + by apply (do_validate_accepted "score_category" score_category_prop _ _
                    eq_refl E7).
Qed.

(** ** Creation *)

Lemma create_run sty tty tid tv sts aid frid cc sc thread_id now
    (st : Datastore) :
  let m := {| suggestion_type := sty; target_type := tty; target_id := tid;
              target_version_at_submission := tv; status := sts;
              author_id := aid; final_reviewer_id := frid; change_cmd := cc;
              score_category := sc |} in
  create sty tty tid tv sts aid frid cc sc thread_id now st
  = match st !! thread_id with
    | Some _ => (inl (DuplicateId thread_id), st)
    | None =>
        if decide (constructible m) then put thread_id m now st
        else (inl BadValueError, st)
    end.
Proof.
  intros m. unfold create, mbind, M_bind, get_by_id, lift, raise.
  destruct (st !! thread_id) as [x|]; [done|].
  rewrite init_constructible. fold m.
  by destruct (decide (constructible m)).
Qed.

(** C1 (as amended): creating under an id that is taken fails with
    DuplicateId. Under a fresh id, creation succeeds and adds exactly the
    one new record, stamped with the time of the write, when every string
    is a value its property accepts (text of at most 1500 bytes, among the
    choices of the property when it has any), the change is not [None],
    the version fits 64 bits and the service does not refuse the write.
    Under a fresh id it fails otherwise: with the store's BadValueError
    when a string is not accepted or the change is [None], with an error of
    the write in the other cases. No failure changes the store. *)
Theorem create_all_or_nothing :
  ∀ sty tty tid tv sts aid frid cc sc thread_id now (st : Datastore),
    let m := {| suggestion_type := sty; target_type := tty;
                target_id := tid; target_version_at_submission := tv;
                status := sts; author_id := aid;
                final_reviewer_id := frid; change_cmd := cc;
                score_category := sc |} in
    let new := {| model := m; last_updated := now |} in
    let run := create sty tty tid tv sts aid frid cc sc thread_id now st in
    (is_Some (st !! thread_id) → run = (inl (DuplicateId thread_id), st))
    ∧ (st !! thread_id = None →
       constructible m → cc ≠ JNull → (- 2 ^ 63 ≤ tv < 2 ^ 63)%Z →
       write_refused thread_id m = false →
       run = (inr tt, <[thread_id := new]> st)
       ∧ <[thread_id := new]> st !! thread_id = Some new
       ∧ (∀ id, id ≠ thread_id → <[thread_id := new]> st !! id = st !! id)
       ∧ size (<[thread_id := new]> st) = S (size st))
    ∧ (st !! thread_id = None → ¬ constructible m →
       run = (inl BadValueError, st))
    ∧ (st !! thread_id = None → constructible m → cc = JNull →
       run = (inl BadValueError, st))
    ∧ (st !! thread_id = None → constructible m → cc ≠ JNull →
       ¬ (- 2 ^ 63 ≤ tv < 2 ^ 63)%Z ∨ write_refused thread_id m = true →
       run = (inl WriteError, st))
    ∧ (∀ e st', run = (inl e, st') → st' = st).
Proof.
  intros. subst run. rewrite create_run. fold m.
  assert (is_int64 tv = true ↔ (- 2 ^ 63 ≤ tv < 2 ^ 63)%Z) as Hint.
  { unfold is_int64. rewrite andb_true_iff, Z.leb_le, Z.ltb_lt. done. }
  split; [|split; [|split; [|split; [|split]]]].
  - intros [x Hx]. by rewrite Hx.
  - intros Hfresh Hm Hcc Htv Hsvc. rewrite Hfresh.
    rewrite decide_True by done. unfold put. simpl.
    rewrite (proj2 Hint Htv), Hsvc. simpl.
    split; [by destruct cc|].
    split; [apply lookup_insert_eq|].
    split; [intros id Hid; by apply lookup_insert_ne|].
    by apply map_size_insert_None.
  - intros Hfresh Hm. rewrite Hfresh. by rewrite decide_False.
  - intros Hfresh Hm Hcc. rewrite Hfresh. rewrite decide_True by done.
    unfold put. simpl. by rewrite Hcc.
  - intros Hfresh Hm Hcc Hbad. rewrite Hfresh. rewrite decide_True by done.
    unfold put. simpl.
    assert (negb (is_int64 tv) || write_refused thread_id m = true) as ->.
    { destruct Hbad as [Htv| ->]; [|apply orb_true_r].
      assert (is_int64 tv = false) as ->; [|done].
      apply not_true_iff_false. intros E. by apply Htv, Hint. }
    by destruct cc.
  - intros e st'. destruct (st !! thread_id) as [x|].
    + by intros [= _ <-].
    + destruct (decide (constructible m)); [|by intros [= _ <-]].
      unfold put. simpl.
      destruct (negb (is_int64 tv) || write_refused thread_id m);
        destruct cc; by intros [= <-] || intros [= _ <-].
Qed.

(** ** Reviewer routing by score category *)

Lemma in_review_node :
  prop_eq status_prop STATUS_IN_REVIEW = inr (FilterEq status_prop STATUS_IN_REVIEW).
Proof. reflexivity. Qed.

Lemma prop_eq_indexable p value :
  _choices p = None → indexable value → prop_eq p value = inr (FilterEq p value).
Proof.
  intros Hp Hv. unfold prop_eq. rewrite do_validate_inr; [done..|].
  by rewrite Hp.
Qed.

Lemma prop_eq_not_indexable p value :
  ¬ indexable value → prop_eq p value = inl BadValueError.
Proof.
  intros Hv. unfold prop_eq. rewrite do_validate_inl; [done|]. by intros [? _].
Qed.

Lemma prop_ne_indexable p value :
  _choices p = None → indexable value → prop_ne p value = inr (FilterNe p value).
Proof.
  intros Hp Hv. unfold prop_ne. rewrite do_validate_inr; [done..|].
  by rewrite Hp.
Qed.

Lemma prop_ne_not_indexable p value :
  ¬ indexable value → prop_ne p value = inl BadValueError.
Proof.
  intros Hv. unfold prop_ne. rewrite do_validate_inl; [done|]. by intros [? _].
Qed.

Lemma query_holds_reviewable cs u e :
  query_holds
    (filter_ (filter_ (filter_ get_all (FilterEq status_prop STATUS_IN_REVIEW))
                      (FilterIn score_category_prop cs))
             (FilterNe author_id_prop u)) e
  ↔ reviewable cs u e.
Proof.
  unfold query_holds, filter_, get_all, reviewable. simpl.
  rewrite !Forall_cons, Forall_nil. simpl. split.
  - intros (Hs & (v & Hv & Hc) & Ha & _).
    injection Hs as Hs. injection Hc as Hc. subst v.
    repeat split; [done..|]. intros Heq. apply Ha. by rewrite Heq.
  - intros (Hs & Hc & Ha). repeat split.
    + by rewrite Hs.
    + by exists (score_category e).
    + intros Heq. by injection Heq.
Qed.

Lemma in_score_categories_run cs u (st : Datastore) :
  cs ≠ [] → Forall indexable cs → indexable u →
  get_in_review_suggestions_in_score_categories cs u st
  = fetch (filter_ (filter_ (filter_ get_all
                                     (FilterEq status_prop STATUS_IN_REVIEW))
                            (FilterIn score_category_prop cs))
                   (FilterNe author_id_prop u))
          (Some DEFAULT_QUERY_LIMIT) st.
Proof.
  intros Hcs Hidx Hu. unfold get_in_review_suggestions_in_score_categories.
  destruct (decide (length cs = 0)) as [Hlen|_].
  { by destruct cs. }
  unfold mbind, M_bind, lift. rewrite in_review_node.
  unfold prop_IN. rewrite validate_all_inr by done.
  by rewrite prop_ne_indexable.
Qed.

Lemma in_score_categories_rejected cs u (st : Datastore) :
  cs ≠ [] → ¬ (Forall indexable cs ∧ indexable u) →
  get_in_review_suggestions_in_score_categories cs u st
  = (inl BadValueError, st).
Proof.
  intros Hcs Hnot. unfold get_in_review_suggestions_in_score_categories.
  destruct (decide (length cs = 0)) as [Hlen|_].
  { by destruct cs. }
  unfold mbind, M_bind, lift. rewrite in_review_node.
  destruct (decide (Forall indexable cs)) as [Hidx|Hidx].
  - unfold prop_IN. rewrite validate_all_inr by done.
    rewrite prop_ne_not_indexable; [done|]. intros Hu. by apply Hnot.
  - unfold prop_IN. by rewrite validate_all_inl.
Qed.

(** C4 (as amended): for a non-empty list of score categories, when the
    categories and the user id are text of at most 1500 bytes, the call
    returns entities of the store, each once, all in review, in one of the
    categories and not written by the user, as many as the query limit
    allows; when the limit does not cut the result short these are all such
    entities. When a category or the user id is not such a value, the call
    raises the store's BadValueError. With A by X and B by another author,
    both in review in category C, asking for [C] excluding X returns B
    alone. *)
Theorem get_in_review_suggestions_in_score_categories_spec :
  (∀ cs u (st : Datastore),
      cs ≠ [] → Forall indexable cs → indexable u →
      ∃ r, get_in_review_suggestions_in_score_categories cs u st = (inr r, st)
           ∧ selects (Some DEFAULT_QUERY_LIMIT) (reviewable cs u) st r
           ∧ (size (filter (λ kv : Entity, reviewable cs u kv.2) st)
              ≤ DEFAULT_QUERY_LIMIT →
              ∀ id e, (id, e) ∈ r ↔ st !! id = Some e ∧ reviewable cs u e))
  ∧ (∀ cs u (st : Datastore),
        cs ≠ [] → ¬ (Forall indexable cs ∧ indexable u) →
        get_in_review_suggestions_in_score_categories cs u st
        = (inl BadValueError, st))
  ∧ (∀ idA idB (A B : StoredSuggestion) X C,
        0 < DEFAULT_QUERY_LIMIT → idA ≠ idB →
        indexable C → indexable X →
        status A = STATUS_IN_REVIEW → status B = STATUS_IN_REVIEW →
        score_category A = C → score_category B = C →
        author_id A = X → author_id B ≠ X →
        get_in_review_suggestions_in_score_categories [C] X
          (<[idA := A]> {[idB := B]})
        = (inr [(idB, B)], <[idA := A]> {[idB := B]})).
Proof.
  assert (∀ cs u (st : Datastore),
      cs ≠ [] → Forall indexable cs → indexable u →
      ∃ r, get_in_review_suggestions_in_score_categories cs u st = (inr r, st)
           ∧ selects (Some DEFAULT_QUERY_LIMIT) (reviewable cs u) st r
           ∧ (size (filter (λ kv : Entity, reviewable cs u kv.2) st)
              ≤ DEFAULT_QUERY_LIMIT →
              ∀ id e, (id, e) ∈ r ↔ st !! id = Some e ∧ reviewable cs u e))
    as Hgen.
  { intros cs u st Hcs Hidx Hu. rewrite in_score_categories_run by done.
    destruct (fetch_selects
      (filter_ (filter_ (filter_ get_all (FilterEq status_prop STATUS_IN_REVIEW))
                        (FilterIn score_category_prop cs))
               (FilterNe author_id_prop u))
      (Some DEFAULT_QUERY_LIMIT) st) as (r & Hr & Hsel).
    exists r. split; [done|].
    assert (selects (Some DEFAULT_QUERY_LIMIT) (reviewable cs u) st r) as Hsel'.
    { eapply selects_iff; [|exact Hsel]. apply query_holds_reviewable. }
    split; [done|]. intros Hle id e. split.
    - apply Hsel'.
    - intros [Hst HP]. by eapply (selects_complete (reviewable cs u)). }
  split; [exact Hgen|].
  split; [intros cs u st; apply in_score_categories_rejected|].
  intros idA idB A B X C Hlim Hne HC HX HsA HsB HcA HcB HaA HaB.
  destruct (Hgen [C] X (<[idA := A]> {[idB := B]})) as (r & -> & Hsel & Hall);
    [done|by constructor|done|].
  f_equal. f_equal.
  assert (filter (λ kv : Entity, reviewable [C] X kv.2)
            (<[idA := A]> ({[idB := B]} : Datastore))
          = {[idB := B]}) as Hfilter.
  { rewrite map_filter_insert_not'.
    - apply map_filter_singleton_True. simpl.
      split; [done|]. split; [|done]. rewrite HcB. by left.
    - simpl. intros (_ & _ & Hauth). done.
    - intros y. rewrite lookup_singleton_ne by done. done. }
  destruct Hsel as (Hnd & Hin & Hlen). rewrite Hfilter, map_size_singleton in *.
  assert (length r = 1) as Hlen1 by lia.
  destruct r as [|[id e] [|? ?]]; simplify_eq/=.
  assert ((idB, B) ∈ [(id, e)]) as Hmem.
  { apply Hall; [lia|]. rewrite lookup_insert_ne, lookup_singleton_eq by done.
    split; [done|]. split; [done|]. split; [|done]. rewrite HcB. by left. }
  apply list_elem_of_singleton in Hmem. by rewrite Hmem.
Qed.

(** C5: with no score category at all the call raises EmptyInput, whoever
    asks and whatever the store holds, and the store is left as it was. *)
Theorem get_in_review_suggestions_in_score_categories_empty :
  ∀ user_id (st : Datastore),
    get_in_review_suggestions_in_score_categories [] user_id st
    = (inl EmptyInput, st).
Proof. reflexivity. Qed.

(** ** Stale suggestions *)

Lemma query_holds_stale thr now e :
  query_holds
    (filter_ (filter_ get_all (FilterEq status_prop STATUS_IN_REVIEW))
             (FilterLastUpdatedLt (now - timedelta 0 0 0 thr)%Z)) e
  ↔ stale thr now e.
Proof.
  unfold query_holds, filter_, get_all, stale, timedelta. simpl.
  rewrite !Forall_cons, Forall_nil. simpl. split.
  - intros (Hs & Hlt & _). injection Hs as Hs. split; [done|lia].
  - intros (Hs & Hgt). rewrite Hs. repeat split; [lia].
Qed.

Lemma stale_selects thr now (st : Datastore) :
  ∃ r, get_all_stale_suggestions thr now st = (inr r, st)
       ∧ selects None (stale thr now) st r.
Proof.
  unfold get_all_stale_suggestions.
  destruct (fetch_selects
    (filter_ (filter_ get_all (FilterEq status_prop STATUS_IN_REVIEW))
             (FilterLastUpdatedLt (now - timedelta 0 0 0 thr)%Z))
    None st) as (r & Hr & Hsel).
  exists r. split; [exact Hr|].
  eapply selects_iff; [|exact Hsel]. apply query_holds_stale.
Qed.

(** C2 (as amended): a suggestion is returned exactly when it is in review
    and was last updated strictly before [now - threshold], that is when its
    age is greater than the threshold: a suggestion whose age equals the
    threshold is left out. With threshold 0 the in-review suggestions last
    updated strictly before [now] are returned. The default threshold is 7
    days, held in milliseconds. *)
Theorem get_all_stale_suggestions_spec :
  (∀ thr now (st : Datastore),
      ∃ r, get_all_stale_suggestions thr now st = (inr r, st)
           ∧ NoDup r
           ∧ ∀ id (e : StoredSuggestion), (id, e) ∈ r
                     ↔ st !! id = Some e ∧ status e = STATUS_IN_REVIEW
                       ∧ (now - last_updated e > thr * 1000)%Z)
  ∧ (∀ now (st : Datastore),
        ∃ r, get_all_stale_suggestions 0 now st = (inr r, st)
             ∧ ∀ id (e : StoredSuggestion), (id, e) ∈ r
                       ↔ st !! id = Some e ∧ status e = STATUS_IN_REVIEW
                         ∧ (last_updated e < now)%Z)
  ∧ timedelta 0 0 0 THRESHOLD_TIME_BEFORE_ACCEPT_IN_MSECS
    = timedelta THRESHOLD_DAYS_BEFORE_ACCEPT 0 0 0.
Proof.
  assert (∀ thr now (st : Datastore),
      ∃ r, get_all_stale_suggestions thr now st = (inr r, st)
           ∧ NoDup r
           ∧ ∀ id (e : StoredSuggestion), (id, e) ∈ r
                     ↔ st !! id = Some e ∧ status e = STATUS_IN_REVIEW
                       ∧ (now - last_updated e > thr * 1000)%Z) as Hgen.
  { intros thr now st.
    destruct (stale_selects thr now st) as (r & Hr & Hsel).
    exists r. split; [done|]. split.
    { destruct Hsel as (Hnd & _). by eapply NoDup_fmap_1. }
    intros id e. split.
    - apply Hsel.
    - intros (Hst & HP). by eapply (selects_complete (stale thr now)). }
  split; [exact Hgen|]. split; [|reflexivity].
  intros now st. destruct (Hgen 0%Z now st) as (r & Hr & _ & Hiff).
  exists r. split; [done|]. intros id e. rewrite Hiff.
  split; intros (? & ? & ?); repeat split; try done; lia.
Qed.

(** ** Export *)

Lemma export_entry_dom e : dom (export_entry e) = EXPORTED_KEYS.
Proof.
  unfold export_entry, EXPORTED_KEYS. simpl.
  rewrite !dom_insert_L, dom_empty_L. reflexivity.
Qed.

Lemma foldl_insert_lookup {A B : Type} (g : A → B) (l : list (string * A))
    (d0 : gmap string B) id :
  NoDup l.*1 →
  foldl (λ (d : gmap string B) (kv : string * A), <[kv.1 := g kv.2]> d) d0 l
    !! id
  = match (list_to_map l : gmap string A) !! id with
    | Some x => Some (g x)
    | None => d0 !! id
    end.
Proof.
  revert d0. induction l as [|[k x] l IH]; intros d0 Hnd.
  - by rewrite list_to_map_nil, lookup_empty.
  - apply NoDup_cons in Hnd as [Hk Hnd]. simpl. rewrite IH by done.
    destruct (decide (k = id)) as [->|Hne].
    + rewrite lookup_insert_eq.
      rewrite (not_elem_of_list_to_map_1 l id Hk).
      by rewrite lookup_insert_eq.
    + by rewrite !lookup_insert_ne.
Qed.

Lemma export_data_lookup u (st : Datastore) :
  indexable u →
  ∃ d, export_data u st = (inr d, st)
       ∧ ∀ id, d !! id
               = export_entry
                   <$> filter (λ kv : Entity, author_id kv.2 = u) st !! id.
Proof.
  intros Hu. unfold export_data, mbind, M_bind, lift.
  rewrite prop_eq_indexable by done.
  eexists. split; [reflexivity|]. intros id.
  rewrite (foldl_insert_lookup export_entry).
  - rewrite lookup_empty.
    assert (filter (λ e : Entity, query_holds
                      (filter_ get_all (FilterEq author_id_prop u)) e.2)
                   (map_to_list st)
            = filter (λ kv : Entity, author_id kv.2 = u) (map_to_list st))
      as ->.
    { apply list_filter_iff. intros [i e]. simpl.
      unfold query_holds, filter_, get_all. simpl.
      rewrite Forall_cons, Forall_nil. simpl. split.
      - intros [Heq _]. by injection Heq.
      - intros ->. done. }
    rewrite <- map_filter_alt.
    by destruct (filter _ st !! id).
  - apply (found_NoDup_fst (query_holds _)).
Qed.

Lemma export_data_rejected u (st : Datastore) :
  ¬ indexable u → export_data u st = (inl BadValueError, st).
Proof.
  intros Hu. unfold export_data, mbind, M_bind, lift.
  by rewrite prop_eq_not_indexable.
Qed.

(** C7 (as amended): for a user id that is text of at most 1500 bytes, the
    export holds exactly one entry for each suggestion the user wrote,
    under the suggestion's id, and nothing else; an entry has the six
    exported keys, with the values the suggestion holds for them, and none
    of author_id, final_reviewer_id and score_category; for a user who
    wrote nothing the export is the empty mapping. For any other user id
    the call raises the store's BadValueError. The store is left as it
    was. *)
Theorem export_data_spec :
  ∀ u (st : Datastore),
    (indexable u →
     ∃ d, export_data u st = (inr d, st)
          ∧ (∀ id, d !! id
                   = match (st !! id : option StoredSuggestion) with
                     | Some e => if decide (author_id e = u)
                                 then Some (export_entry e) else None
                     | None => None
                     end)
          ∧ size d = size (filter (λ kv : Entity, author_id kv.2 = u) st)
          ∧ (∀ id entry, d !! id = Some entry →
               dom entry = EXPORTED_KEYS
               ∧ entry !! "author_id" = None
               ∧ entry !! "final_reviewer_id" = None
               ∧ entry !! "score_category" = None)
          ∧ (∀ id (e : StoredSuggestion),
               st !! id = Some e → author_id e = u →
               d !! id
               = Some (list_to_map
                         [("suggestion_type", JString (suggestion_type e));
                          ("target_type", JString (target_type e));
                          ("target_id", JString (target_id e));
                          ("target_version_at_submission",
                           JInt (target_version_at_submission e));
                          ("status", JString (status e));
                          ("change_cmd", change_cmd e)]))
          ∧ ((∀ id (e : StoredSuggestion), st !! id = Some e → author_id e ≠ u)
             → d = ∅))
    ∧ (¬ indexable u → export_data u st = (inl BadValueError, st)).
Proof.
  intros u st. split; [|apply export_data_rejected].
  intros Hu. destruct (export_data_lookup u st Hu) as (d & Hd & Hlook).
  exists d. split; [done|].
  assert (d = export_entry <$> filter (λ kv : Entity, author_id kv.2 = u) st)
    as Hdmap.
  { apply map_eq. intros id. by rewrite Hlook, lookup_fmap. }
  assert (∀ id, d !! id
                = match (st !! id : option StoredSuggestion) with
                  | Some e => if decide (author_id e = u)
                              then Some (export_entry e) else None
                  | None => None
                  end) as Hchar.
  { intros id. rewrite Hlook, map_lookup_filter.
    destruct (st !! id) as [e|]; [|done]. simpl.
    destruct (decide (author_id e = u)) as [Heq|Hne].
    - by rewrite option_guard_True.
    - by rewrite option_guard_False. }
  split; [exact Hchar|]. split; [by rewrite Hdmap, map_size_fmap|].
  split; [|split].
  - intros id entry. rewrite Hchar.
    destruct (st !! id) as [e|]; [|done].
    destruct (decide (author_id e = u)); [|done].
    intros [= <-]. split; [apply export_entry_dom|]. done.
  - intros id e Hst Heq. rewrite Hchar, Hst. by rewrite decide_True.
  - intros Hnone. apply map_eq. intros id. rewrite Hchar, lookup_empty.
    destruct (st !! id) as [e|] eqn:He; [|done].
    destruct (decide (author_id e = u)) as [Heq|]; [|done].
    by destruct (Hnone id e He).
Qed.

(** ** The generic query *)

Lemma getattr_allowed field :
  field ∈ ALLOWED_QUERY_FIELDS →
  ∃ p, getattr field = inr p
       ∧ _choices p = choices_of field
       ∧ ∀ m, _get_value p m = field_value field m.
Proof.
  unfold ALLOWED_QUERY_FIELDS. rewrite !elem_of_cons, elem_of_nil.
  intros [->|[->|[->|[->|[->|[->|[->|[]]]]]]]]; eexists;
    (split; [reflexivity|]); (split; [reflexivity|]); intros m; reflexivity.
Qed.

Lemma prop_eq_accepted field p value :
  _choices p = choices_of field → accepted_value field value →
  prop_eq p value = inr (FilterEq p value).
Proof.
  intros Hp Hacc. unfold prop_eq.
  by rewrite (accepted_do_validate field).
Qed.

Lemma prop_eq_rejected field p value :
  _choices p = choices_of field → ¬ accepted_value field value →
  prop_eq p value = inl BadValueError.
Proof.
  intros Hp Hrej. unfold prop_eq.
  by rewrite (rejected_do_validate field).
Qed.

Lemma loop_step_admissible query field value rest (st : Datastore) :
  admissible (field, value) →
  ∃ p, (∀ m, _get_value p m = field_value field m)
       ∧ query_suggestions_loop query ((field, value) :: rest) st
         = query_suggestions_loop (filter_ query (FilterEq p value)) rest st.
Proof.
  intros [Hallowed Hacc]. simpl in *.
  destruct (getattr_allowed field Hallowed) as (p & Hget & Hch & Hval).
  exists p. split; [done|].
  rewrite bool_decide_eq_true_2 by done.
  unfold mbind, M_bind, lift. rewrite Hget.
  by rewrite (prop_eq_accepted field).
Qed.

Lemma loop_admissible qfv :
  Forall admissible qfv →
  ∀ query (st : Datastore),
    ∃ q, query_suggestions_loop query qfv st = (inr q, st)
         ∧ ∀ e : StoredSuggestion,
             query_holds q e ↔ query_holds query e ∧ satisfies qfv e.
Proof.
  induction 1 as [|[field value] rest Hadm _ IH]; intros query st.
  - exists query. split; [done|]. intros e. unfold satisfies.
    rewrite Forall_nil. by rewrite (right_id True and).
  - destruct (loop_step_admissible query field value rest st Hadm)
      as (p & Hval & ->).
    destruct (IH (filter_ query (FilterEq p value)) st) as (q & -> & Hq).
    exists q. split; [done|]. intros e. rewrite Hq.
    unfold query_holds, filter_, satisfies.
    rewrite Forall_app, Forall_singleton, Forall_cons. simpl.
    rewrite Hval. by rewrite (assoc and).
Qed.

Lemma loop_rejected pre field value post :
  Forall admissible pre →
  field ∈ ALLOWED_QUERY_FIELDS → ¬ accepted_value field value →
  ∀ query (st : Datastore),
    query_suggestions_loop query (pre ++ (field, value) :: post) st
    = (inl BadValueError, st).
Proof.
  intros Hpre Hallowed Hrej.
  induction Hpre as [|[f v] rest Hadm _ IH]; intros query st.
  - simpl. rewrite bool_decide_eq_true_2 by done.
    destruct (getattr_allowed field Hallowed) as (p & Hget & Hch & _).
    unfold mbind, M_bind, lift. rewrite Hget.
    by rewrite (prop_eq_rejected field).
  - rewrite <- app_comm_cons.
    destruct (loop_step_admissible query f v (rest ++ (field, value) :: post)
                st Hadm) as (p & _ & ->).
    apply IH.
Qed.

Lemma loop_disallowed pre field value post :
  Forall admissible pre → field ∉ ALLOWED_QUERY_FIELDS →
  ∀ query (st : Datastore),
    query_suggestions_loop query (pre ++ (field, value) :: post) st
    = (inl (InvalidField field), st).
Proof.
  intros Hpre Hout.
  induction Hpre as [|[f v] rest Hadm _ IH]; intros query st.
  - simpl. by rewrite bool_decide_eq_false_2.
  - rewrite <- app_comm_cons.
    destruct (loop_step_admissible query f v (rest ++ (field, value) :: post)
                st Hadm) as (p & _ & ->).
    apply IH.
Qed.

(** A list whose elements do not all satisfy [P] splits at the first one
    that does not. *)
Lemma first_failing {A : Type} (P : A → Prop) `{!∀ x, Decision (P x)}
    (l : list A) :
  ¬ Forall P l →
  ∃ pre x post, l = pre ++ x :: post ∧ Forall P pre ∧ ¬ P x.
Proof.
  induction l as [|x rest IH]; intros Hnot.
  - by destruct Hnot.
  - destruct (decide (P x)) as [HP|Hbad].
    + destruct IH as (pre & y & post & -> & Hpre & Hy).
      { intros Hrest. apply Hnot. by constructor. }
      exists (x :: pre), y, post. split; [done|]. split; [|done].
      by constructor.
    + exists [], x, rest. split; [done|]. split; [constructor|done].
Qed.

Lemma query_suggestions_admissible qfv (st : Datastore) :
  Forall admissible qfv →
  query_suggestions qfv st
  = (inr (take DEFAULT_QUERY_LIMIT
            (filter (λ kv : Entity, satisfies qfv kv.2) (map_to_list st))),
     st).
Proof.
  intros Hadm. unfold query_suggestions.
  destruct (loop_admissible qfv Hadm query st) as (q & Hq & Hholds).
  rewrite (bind_inr _ _ _ _ _ Hq). unfold fetch. do 3 f_equal.
  apply list_filter_iff. intros [id e]. simpl. rewrite Hholds.
  unfold query, query_holds. rewrite Forall_nil. by rewrite (left_id True and).
Qed.

Lemma query_suggestions_rejected qfv (st : Datastore) :
  Forall (λ fv : string * string, fv.1 ∈ ALLOWED_QUERY_FIELDS) qfv →
  ¬ Forall admissible qfv →
  query_suggestions qfv st = (inl BadValueError, st).
Proof.
  intros Hallowed Hnot.
  destruct (first_failing admissible qfv Hnot)
    as (pre & [field value] & post & -> & Hpre & Hbad).
  apply Forall_app in Hallowed as [_ Hallowed].
  apply Forall_cons in Hallowed as [Hfield _]. simpl in Hfield.
  unfold query_suggestions. apply bind_inl.
  apply loop_rejected; [done..|].
  intros Hacc. apply Hbad. by split.
Qed.

(** C3 (as amended): a filter list with a field outside the allow-list makes
    the query raise, return nothing and leave the store as it was. The
    pairs are checked in order: the error is InvalidField for the first
    disallowed field when every pair before it carries a value its field
    accepts (text of at most 1500 bytes, among the choices of the field
    when it has any), and the store's BadValueError, raised at the first
    value its field rejects, otherwise. *)
Theorem query_suggestions_disallowed_field :
  ∀ qfv (st : Datastore),
    Exists (λ fv : string * string, fv.1 ∉ ALLOWED_QUERY_FIELDS) qfv →
    ∃ pre field value post,
      qfv = pre ++ ((field, value) :: post)
      ∧ Forall (λ fv : string * string, fv.1 ∈ ALLOWED_QUERY_FIELDS) pre
      ∧ (field ∉ ALLOWED_QUERY_FIELDS)
      ∧ query_suggestions qfv st
        = (inl (if decide (Forall (λ fv : string * string,
                                     accepted_value fv.1 fv.2) pre)
                then (InvalidField field) else BadValueError),
           st).
Proof.
  intros qfv st Hex.
  destruct (first_failing (λ fv : string * string, fv.1 ∈ ALLOWED_QUERY_FIELDS)
              qfv) as (pre & [field value] & post & -> & Hpre & Hout).
  { intros Hall. apply Exists_exists in Hex as (fv & Hfv & Hno).
    apply Hno. by apply (proj1 (Forall_forall _ _) Hall fv). }
  simpl in Hout. exists pre, field, value, post.
  split; [done|]. split; [done|]. split; [done|].
  unfold query_suggestions. apply bind_inl.
  destruct (decide (Forall _ pre)) as [Hacc|Hrej].
  - apply loop_disallowed; [|done]. apply Forall_and. by split.
  - destruct (first_failing admissible pre)
      as (p1 & [f v] & p2 & -> & Hp1 & Hbad).
    { intros Hadm. apply Hrej. by apply Forall_and in Hadm as [_ ?]. }
    apply Forall_app in Hpre as [_ Hpre].
    apply Forall_cons in Hpre as [Hf _]. simpl in Hf.
    rewrite <- app_assoc, <- app_comm_cons.
    apply loop_rejected; [done..|].
    intros Hacc. apply Hbad. by split.
Qed.

(** C8 (as amended): when every field is allowed and every value is one its
    field accepts (text of at most 1500 bytes, among the choices of the
    field when it has any), the query returns entities of the store, each
    once, all passing every test [field == value], as many as the query
    limit allows; when the limit does not cut the result short these are
    all such entities. The empty filter list is legal and returns the
    unfiltered set under the same bound. When every field is allowed and
    some value is not one its field accepts, the query raises the store's
    BadValueError. *)
Theorem query_suggestions_conjunction :
  (∀ qfv (st : Datastore),
      Forall (λ fv : string * string, fv.1 ∈ ALLOWED_QUERY_FIELDS) qfv →
      Forall (λ fv : string * string, accepted_value fv.1 fv.2) qfv →
      ∃ r, query_suggestions qfv st = (inr r, st)
           ∧ selects (Some DEFAULT_QUERY_LIMIT) (satisfies qfv) st r
           ∧ (size (filter (λ kv : Entity, satisfies qfv kv.2) st)
              ≤ DEFAULT_QUERY_LIMIT →
              ∀ id (e : StoredSuggestion),
                (id, e) ∈ r ↔ st !! id = Some e ∧ satisfies qfv e))
  ∧ (∀ st : Datastore,
        ∃ r, query_suggestions [] st = (inr r, st)
             ∧ length r = DEFAULT_QUERY_LIMIT `min` size st
             ∧ ∀ id (e : StoredSuggestion), (id, e) ∈ r → st !! id = Some e)
  ∧ (∀ qfv (st : Datastore),
        Forall (λ fv : string * string, fv.1 ∈ ALLOWED_QUERY_FIELDS) qfv →
        ¬ Forall (λ fv : string * string, accepted_value fv.1 fv.2) qfv →
        query_suggestions qfv st = (inl BadValueError, st)).
Proof.
  assert (∀ qfv (st : Datastore),
      Forall admissible qfv →
      ∃ r, query_suggestions qfv st = (inr r, st)
           ∧ selects (Some DEFAULT_QUERY_LIMIT) (satisfies qfv) st r) as Hsel.
  { intros qfv st Hadm. eexists. split.
    - by apply query_suggestions_admissible.
    - apply (selects_found (satisfies qfv) (Some DEFAULT_QUERY_LIMIT)). }
  split; [|split].
  - intros qfv st Hallowed Hacc.
    destruct (Hsel qfv st) as (r & Hr & Hs).
    { apply Forall_and. by split. }
    exists r. split; [done|]. split; [done|].
    intros Hle id e. split.
    + apply Hs.
    + intros [Hst HP]. by eapply (selects_complete (satisfies qfv)).
  - intros st. destruct (Hsel [] st) as (r & Hr & Hnd & Hin & Hlen).
    { constructor. }
    exists r. split; [done|]. split.
    + rewrite Hlen. f_equal. f_equal. apply map_filter_id.
      intros i x _. simpl. constructor.
    + intros id e Hmem. by apply Hin.
  - intros qfv st Hallowed Hrej. apply query_suggestions_rejected; [done|].
    intros Hadm. apply Hrej. by apply Forall_and in Hadm as [_ ?].
Qed.

(** C10: when every field is allowed, the query on a permutation of the
    filter list has the outcome of the query on the list itself: the same
    entities are returned, or both calls raise the store's BadValueError. *)
Theorem query_suggestions_permutation :
  ∀ qfv qfv' (st : Datastore),
    Forall (λ fv : string * string, fv.1 ∈ ALLOWED_QUERY_FIELDS) qfv →
    qfv ≡ₚ qfv' →
    query_suggestions qfv' st = query_suggestions qfv st.
Proof.
  intros qfv qfv' st Hallowed Hperm.
  assert (Forall (λ fv : string * string, fv.1 ∈ ALLOWED_QUERY_FIELDS) qfv')
    as Hallowed' by by rewrite <- Hperm.
  destruct (decide (Forall admissible qfv)) as [Hadm|Hbad].
  - assert (Forall admissible qfv') as Hadm' by by rewrite <- Hperm.
    rewrite !query_suggestions_admissible by done. do 3 f_equal.
    apply list_filter_iff. intros [id e]. unfold satisfies. simpl.
    by rewrite Hperm.
  - assert (¬ Forall admissible qfv') as Hbad' by by rewrite <- Hperm.
    by rewrite !query_suggestions_rejected.
Qed.

(** ** Result bounds *)

Lemma returned_fetch_le (q : Query) n (st : Datastore) :
  length (returned (fetch q (Some n) st)) ≤ n.
Proof. unfold returned, fetch. simpl. rewrite length_take. lia. Qed.

Lemma returned_bind_le {A B : Type} (m : M A) (f : A → M (list B)) n
    (st : Datastore) :
  (∀ x st', length (returned (f x st')) ≤ n) →
  length (returned ((m ≫= f) st)) ≤ n.
Proof.
  intros Hf. unfold mbind, M_bind.
  destruct (m st) as [[e|x] st']; [|apply Hf].
  unfold returned. simpl. lia.
Qed.

(** C6 (as amended): the generic query and the three queries by category
    and by suggestion type never return more entities than the query limit.
    [get_all_stale_suggestions] and [export_data] fetch without a limit:
    they return every matching suggestion, however many there are, the
    export when the user id is text of at most 1500 bytes (it raises the
    store's BadValueError otherwise). *)
Theorem query_results_bounded :
  (∀ qfv (st : Datastore),
      length (returned (query_suggestions qfv st)) ≤ DEFAULT_QUERY_LIMIT)
  ∧ (∀ cs u (st : Datastore),
        length (returned
                  (get_in_review_suggestions_in_score_categories cs u st))
        ≤ DEFAULT_QUERY_LIMIT)
  ∧ (∀ ty u (st : Datastore),
        length (returned
                  (get_in_review_suggestions_of_suggestion_type ty u st))
        ≤ DEFAULT_QUERY_LIMIT)
  ∧ (∀ ty u (st : Datastore),
        length (returned
                  (get_user_created_suggestions_of_suggestion_type ty u st))
        ≤ DEFAULT_QUERY_LIMIT)
  ∧ (∀ thr now (st : Datastore),
        length (returned (get_all_stale_suggestions thr now st))
        = size (filter (λ kv : Entity, stale thr now kv.2) st))
  ∧ (∀ u (st : Datastore),
        indexable u →
        ∃ d, export_data u st = (inr d, st)
             ∧ size d = size (filter (λ kv : Entity, author_id kv.2 = u) st))
  ∧ (∀ u (st : Datastore),
        ¬ indexable u → export_data u st = (inl BadValueError, st)).
Proof.
  split; [|split; [|split; [|split; [|split; [|split]]]]].
  - intros qfv st. unfold query_suggestions.
    apply returned_bind_le. intros q st'. apply returned_fetch_le.
  - intros cs u st. unfold get_in_review_suggestions_in_score_categories.
    destruct (decide (length cs = 0)).
    { unfold returned, raise. simpl. lia. }
    repeat (apply returned_bind_le; intros).
    apply returned_fetch_le.
  - intros ty u st. unfold get_in_review_suggestions_of_suggestion_type.
    repeat (apply returned_bind_le; intros).
    apply returned_fetch_le.
  - intros ty u st. unfold get_user_created_suggestions_of_suggestion_type.
    repeat (apply returned_bind_le; intros).
    apply returned_fetch_le.
  - intros thr now st.
    destruct (stale_selects thr now st) as (r & Hr & _ & _ & Hlen).
    unfold returned. by rewrite Hr.
  - intros u st Hu. destruct (export_data_lookup u st Hu) as (d & Hd & Hlook).
    exists d. split; [done|].
    assert (d = export_entry
                  <$> filter (λ kv : Entity, author_id kv.2 = u) st) as ->.
    { apply map_eq. intros id. by rewrite Hlook, lookup_fmap. }
    apply map_size_fmap.
  - intros u st. apply export_data_rejected.
Qed.

(** ** The score category convention *)

Lemma delimiter_is_char :
  SCORE_CATEGORY_DELIMITER = String delimiter_char EmptyString.
Proof. reflexivity. Qed.

Lemma str_in_delimiter_cons c s :
  str_in SCORE_CATEGORY_DELIMITER (String c s)
  = Ascii.eqb c delimiter_char || str_in SCORE_CATEGORY_DELIMITER s.
Proof.
  change (str_in SCORE_CATEGORY_DELIMITER (String c s))
    with (String.prefix SCORE_CATEGORY_DELIMITER (String c s)
          || str_in SCORE_CATEGORY_DELIMITER s).
  f_equal.
  change (String.prefix SCORE_CATEGORY_DELIMITER (String c s))
    with (if Ascii.ascii_dec delimiter_char c
          then String.prefix EmptyString s else false).
  destruct (Ascii.ascii_dec delimiter_char c) as [<-|Hne].
  - rewrite Ascii.eqb_refl. by destruct s.
  - symmetry. apply Ascii.eqb_neq. congruence.
Qed.

Lemma score_type_of_cons c s :
  score_type_of (String c s)
  = if Ascii.eqb c delimiter_char then EmptyString
    else String c (score_type_of s).
Proof.
  unfold score_type_of. simpl.
  destruct (Ascii.eqb c delimiter_char); [done|].
  destruct s as [|c' s']; [done|]. simpl.
  destruct (Ascii.eqb c' delimiter_char); [done|].
  by destruct (split delimiter_char s').
Qed.

Lemma score_type_of_no_delimiter s :
  str_in SCORE_CATEGORY_DELIMITER (score_type_of s) = false.
Proof.
  induction s as [|c s IH]; [done|].
  rewrite score_type_of_cons.
  destruct (Ascii.eqb c delimiter_char) eqn:Hc; [done|].
  by rewrite str_in_delimiter_cons, Hc, IH.
Qed.

Lemma score_type_of_join t sub :
  str_in SCORE_CATEGORY_DELIMITER t = false →
  score_type_of (t +:+ SCORE_CATEGORY_DELIMITER +:+ sub) = t.
Proof.
  induction t as [|c t IH]; [done|].
  rewrite str_in_delimiter_cons. intros [Hc Ht]%orb_false_elim.
  change (String c t +:+ SCORE_CATEGORY_DELIMITER +:+ sub)
    with (String c (t +:+ SCORE_CATEGORY_DELIMITER +:+ sub)).
  by rewrite score_type_of_cons, Hc, IH.
Qed.

Lemma score_types_no_delimiter score_type :
  score_type ∈ SCORE_TYPE_CHOICES →
  str_in SCORE_CATEGORY_DELIMITER score_type = false.
Proof.
  unfold SCORE_TYPE_CHOICES. rewrite !elem_of_cons, elem_of_nil.
  by intros [->|[->|[->|[]]]].
Qed.

Lemma create_inr sty tty tid tv sts aid frid cc sc thread_id now
    (st st' : Datastore) :
  let m := {| suggestion_type := sty; target_type := tty; target_id := tid;
              target_version_at_submission := tv; status := sts;
              author_id := aid; final_reviewer_id := frid; change_cmd := cc;
              score_category := sc |} in
  create sty tty tid tv sts aid frid cc sc thread_id now st = (inr tt, st') →
  st !! thread_id = None
  ∧ st' = <[thread_id := {| model := m; last_updated := now |}]> st
  ∧ constructible m.
Proof.
  intros m. rewrite create_run. fold m.
  destruct (st !! thread_id) as [x|]; [done|].
  destruct (decide (constructible m)) as [Hm|]; [|done].
  unfold put. simpl.
  destruct (negb (is_int64 tv) || write_refused thread_id m);
    destruct cc; try done; by intros [= <-].
Qed.

(** C9 (as amended): no score type contains the delimiter; the first
    component of a score category split on the delimiter never contains the
    delimiter, and it is the score type when the category is a score type,
    the delimiter and a subcategory. [create] does not check the score
    category: it stores the one it is given, unchanged, and keeps the others,
    so that the score categories of the store all start with a score type
    after a creation when they did before and the new one does. *)
Theorem score_category_shape :
  (∀ score_type, score_type ∈ SCORE_TYPE_CHOICES →
                 str_in SCORE_CATEGORY_DELIMITER score_type = false)
  ∧ (∀ score_category,
        str_in SCORE_CATEGORY_DELIMITER (score_type_of score_category) = false)
  ∧ (∀ score_type sub,
        score_type ∈ SCORE_TYPE_CHOICES →
        score_type_of (score_type +:+ SCORE_CATEGORY_DELIMITER +:+ sub)
        = score_type)
  ∧ (∀ sty tty tid tv sts aid frid cc sc thread_id now (st st' : Datastore),
        create sty tty tid tv sts aid frid cc sc thread_id now st
        = (inr tt, st') →
        (∃ e : StoredSuggestion,
            st' !! thread_id = Some e ∧ score_category e = sc)
        ∧ (∀ id, id ≠ thread_id → st' !! id = st !! id)
        ∧ (score_categories_typed st →
           score_type_of sc ∈ SCORE_TYPE_CHOICES →
           score_categories_typed st')).
Proof.
  split; [exact score_types_no_delimiter|].
  split; [exact score_type_of_no_delimiter|].
  split.
  { intros score_type sub Hin.
    by apply score_type_of_join, score_types_no_delimiter. }
  intros sty tty tid tv sts aid frid cc sc thread_id now st st' Hrun.
  apply create_inr in Hrun as (Hfresh & -> & Hm).
  split; [|split].
  - eexists. split; [apply lookup_insert_eq|done].
  - intros id Hid. by apply lookup_insert_ne.
  - intros Hst Hsc id e.
    destruct (decide (id = thread_id)) as [->|Hne].
    + rewrite lookup_insert_eq. by intros [= <-].
    + rewrite lookup_insert_ne by done. apply Hst.
Qed.

(** ** References to a user *)

Lemma OR_holds_refers_to u (e : StoredSuggestion) :
  OR_holds (FilterEq author_id_prop u) (FilterEq final_reviewer_id_prop u) e
  ↔ refers_to u e.
Proof.
  unfold OR_holds, refers_to. simpl. split.
  - intros [Ha|Hr]; [left; by injection Ha|by right].
  - intros [Ha|Hr]; [left; by rewrite Ha|by right].
Qed.

Lemma has_reference_run u (st : Datastore) :
  indexable u →
  has_reference_to_user_id u st
  = (inr (bool_decide
            (head (filter (λ kv : Entity, refers_to u kv.2) (map_to_list st))
             ≠ None)),
     st).
Proof.
  intros Hu. unfold has_reference_to_user_id, query_get, mbind, M_bind, lift.
  rewrite !prop_eq_indexable by done. unfold mret, M_ret. simpl.
  do 2 f_equal. apply bool_decide_ext.
  assert (filter (λ kv : Entity,
                    OR_holds (FilterEq author_id_prop u)
                             (FilterEq final_reviewer_id_prop u) kv.2)
                 (map_to_list st)
          = filter (λ kv : Entity, refers_to u kv.2) (map_to_list st)) as ->.
  { apply list_filter_iff. intros [id e]. apply OR_holds_refers_to. }
  done.
Qed.

Lemma has_reference_rejected u (st : Datastore) :
  ¬ indexable u → has_reference_to_user_id u st = (inl BadValueError, st).
Proof.
  intros Hu. unfold has_reference_to_user_id, mbind, M_bind, lift.
  by rewrite prop_eq_not_indexable.
Qed.

Lemma nonempty_elem_of {A : Type} (l : list A) : l ≠ [] ↔ ∃ x, x ∈ l.
Proof.
  split.
  - destruct l as [|x l]; [done|]. intros _. exists x. by left.
  - intros [x Hx] ->. by apply elem_of_nil in Hx.
Qed.

Lemma has_reference_true u (st : Datastore) :
  has_reference_to_user_id u st = (inr true, st)
  ↔ indexable u
    ∧ ∃ id (e : StoredSuggestion), st !! id = Some e ∧ refers_to u e.
Proof.
  destruct (decide (indexable u)) as [Hu|Hu].
  - rewrite has_reference_run by done. split.
    + intros [= Hb]. split; [done|]. apply bool_decide_eq_true in Hb.
      apply (not_eq_None_Some (head _)), head_is_Some, nonempty_elem_of in Hb
        as [[id e] Hin].
      apply (found_elem_of (refers_to u)) in Hin. by exists id, e.
    + intros (_ & id & e & Hst & Href). do 2 f_equal.
      apply bool_decide_eq_true, (not_eq_None_Some (head _)), head_is_Some,
        nonempty_elem_of.
      exists (id, e). apply (found_elem_of (refers_to u)). by split.
  - rewrite has_reference_rejected by done. split; [done|]. by intros [? _].
Qed.

(** X1: for a user id that is text of at most 1500 bytes,
    [has_reference_to_user_id] answers true exactly when some stored
    suggestion has the user as its author or as its final reviewer; for
    any other user id it raises the store's BadValueError. The store is
    left as it was. *)
Theorem has_reference_to_user_id_spec :
  ∀ u (st : Datastore),
    (indexable u →
     ∃ b, has_reference_to_user_id u st = (inr b, st)
          ∧ (b = true
             ↔ ∃ id (e : StoredSuggestion),
                 st !! id = Some e
                 ∧ (author_id e = u ∨ final_reviewer_id e = Some u)))
    ∧ (¬ indexable u →
       has_reference_to_user_id u st = (inl BadValueError, st)).
Proof.
  intros u st. split; [|apply has_reference_rejected].
  intros Hu. eexists. split; [by apply has_reference_run|].
  rewrite bool_decide_eq_true.
  rewrite not_eq_None_Some, head_is_Some, nonempty_elem_of.
  split.
  - intros [[id e] Hin]. apply (found_elem_of (refers_to u)) in Hin.
    exists id, e. exact Hin.
  - intros (id & e & Hst & Href). exists (id, e).
    apply (found_elem_of (refers_to u)). by split.
Qed.

(** X2: after a successful creation the author and the final reviewer
    given to [create] are referenced, and every user referenced before is
    still referenced. *)
Theorem create_adds_references :
  ∀ sty tty tid tv sts aid frid cc sc thread_id now (st st' : Datastore),
    create sty tty tid tv sts aid frid cc sc thread_id now st = (inr tt, st') →
    has_reference_to_user_id aid st' = (inr true, st')
    ∧ (∀ reviewer, frid = Some reviewer →
         has_reference_to_user_id reviewer st' = (inr true, st'))
    ∧ (∀ u, has_reference_to_user_id u st = (inr true, st) →
            has_reference_to_user_id u st' = (inr true, st')).
Proof.
  intros sty tty tid tv sts aid frid cc sc thread_id now st st' Hrun.
  apply create_inr in Hrun as (Hfresh & -> & Hm).
  destruct Hm as (_ & _ & _ & _ & [Haid _] & Hfrid & _). simpl in *.
  split; [|split].
  - apply has_reference_true. split; [done|].
    eexists _, _. split; [apply lookup_insert_eq|]. by left.
  - intros reviewer ->. destruct Hfrid as [Hrev _].
    apply has_reference_true. split; [done|]. eexists _, _.
    split; [apply lookup_insert_eq|]. by right.
  - intros u (Hu & id & e & Hst & Href)%has_reference_true.
    apply has_reference_true. split; [done|]. exists id, e.
    split; [|done]. rewrite lookup_insert_ne; [done|].
    intros <-. by rewrite Hfresh in Hst.
Qed.

(** ** Queries by suggestion type *)

Lemma suggestion_type_node ty :
  ty ∈ SUGGESTION_TYPE_CHOICES →
  prop_eq suggestion_type_prop ty = inr (FilterEq suggestion_type_prop ty).
Proof.
  intros Hty. apply (prop_eq_accepted "suggestion_type"); [done|].
  split; [|done]. by apply (choices_indexable "suggestion_type" _ _ eq_refl).
Qed.

Lemma suggestion_type_node_rejected ty :
  ty ∉ SUGGESTION_TYPE_CHOICES →
  prop_eq suggestion_type_prop ty = inl BadValueError.
Proof.
  intros Hty. apply (prop_eq_rejected "suggestion_type"); [done|].
  by intros [_ ?].
Qed.

Lemma query_holds_reviewable_of_type ty u (e : StoredSuggestion) :
  query_holds
    (filter_ (filter_ (filter_ get_all (FilterEq status_prop STATUS_IN_REVIEW))
                      (FilterEq suggestion_type_prop ty))
             (FilterNe author_id_prop u)) e
  ↔ reviewable_of_type ty u e.
Proof.
  unfold query_holds, filter_, get_all, reviewable_of_type, in_review_of_type.
  simpl. rewrite !Forall_cons, Forall_nil. simpl. split.
  - intros (Hs & Ht & Ha & _). injection Hs as Hs. injection Ht as Ht.
    repeat split; [done..|]. intros Heq. apply Ha. by rewrite Heq.
  - intros ((Hs & Ht) & Ha). repeat split.
    + by rewrite Hs.
    + by rewrite Ht.
    + intros Heq. by injection Heq.
Qed.

Lemma query_holds_created_of_type ty u (e : StoredSuggestion) :
  query_holds
    (filter_ (filter_ (filter_ get_all (FilterEq status_prop STATUS_IN_REVIEW))
                      (FilterEq suggestion_type_prop ty))
             (FilterEq author_id_prop u)) e
  ↔ created_of_type ty u e.
Proof.
  unfold query_holds, filter_, get_all, created_of_type, in_review_of_type.
  simpl. rewrite !Forall_cons, Forall_nil. simpl. split.
  - intros (Hs & Ht & Ha & _). injection Hs as Hs. injection Ht as Ht.
    injection Ha as Ha. done.
  - intros ((Hs & Ht) & Ha). by rewrite Hs, Ht, Ha.
Qed.

Lemma in_review_of_type_run ty u (st : Datastore) :
  ty ∈ SUGGESTION_TYPE_CHOICES → indexable u →
  get_in_review_suggestions_of_suggestion_type ty u st
  = (inr (take DEFAULT_QUERY_LIMIT
            (filter (λ kv : Entity, reviewable_of_type ty u kv.2)
                    (map_to_list st))),
     st).
Proof.
  intros Hty Hu. unfold get_in_review_suggestions_of_suggestion_type.
  unfold mbind, M_bind, lift.
  rewrite in_review_node, suggestion_type_node, prop_ne_indexable by done.
  simpl. unfold fetch. do 3 f_equal.
  apply list_filter_iff. intros [id e]. apply query_holds_reviewable_of_type.
Qed.

Lemma user_created_of_type_run ty u (st : Datastore) :
  ty ∈ SUGGESTION_TYPE_CHOICES → indexable u →
  get_user_created_suggestions_of_suggestion_type ty u st
  = (inr (take DEFAULT_QUERY_LIMIT
            (filter (λ kv : Entity, created_of_type ty u kv.2)
                    (map_to_list st))),
     st).
Proof.
  intros Hty Hu. unfold get_user_created_suggestions_of_suggestion_type.
  unfold mbind, M_bind, lift.
  rewrite in_review_node, suggestion_type_node, prop_eq_indexable by done.
  simpl. unfold fetch. do 3 f_equal.
  apply list_filter_iff. intros [id e]. apply query_holds_created_of_type.
Qed.

Lemma in_review_of_type_rejected ty u (st : Datastore) :
  ty ∉ SUGGESTION_TYPE_CHOICES ∨ ¬ indexable u →
  get_in_review_suggestions_of_suggestion_type ty u st
  = (inl BadValueError, st).
Proof.
  intros Hbad. unfold get_in_review_suggestions_of_suggestion_type.
  unfold mbind, M_bind, lift. rewrite in_review_node.
  destruct (decide (ty ∈ SUGGESTION_TYPE_CHOICES)) as [Hty|Hty].
  - rewrite suggestion_type_node by done.
    rewrite prop_ne_not_indexable; [done|]. by destruct Hbad.
  - by rewrite suggestion_type_node_rejected.
Qed.

Lemma user_created_of_type_rejected ty u (st : Datastore) :
  ty ∉ SUGGESTION_TYPE_CHOICES ∨ ¬ indexable u →
  get_user_created_suggestions_of_suggestion_type ty u st
  = (inl BadValueError, st).
Proof.
  intros Hbad. unfold get_user_created_suggestions_of_suggestion_type.
  unfold mbind, M_bind, lift. rewrite in_review_node.
  destruct (decide (ty ∈ SUGGESTION_TYPE_CHOICES)) as [Hty|Hty].
  - rewrite suggestion_type_node by done.
    rewrite prop_eq_not_indexable; [done|]. by destruct Hbad.
  - by rewrite suggestion_type_node_rejected.
Qed.

(** X3: for a suggestion type among the choices and a user id that is
    text of at most 1500 bytes,
    [get_in_review_suggestions_of_suggestion_type] returns entities of the
    store, each once, all in review, of that type and not written by the
    user, as many as the query limit allows, and all of them when the limit
    does not cut the result short; for any other type or user id it raises
    the store's BadValueError. The store is left as it was. *)
Theorem get_in_review_suggestions_of_suggestion_type_spec :
  ∀ ty u (st : Datastore),
    (ty ∈ SUGGESTION_TYPE_CHOICES → indexable u →
     ∃ r, get_in_review_suggestions_of_suggestion_type ty u st = (inr r, st)
          ∧ selects (Some DEFAULT_QUERY_LIMIT) (reviewable_of_type ty u) st r
          ∧ (size (filter (λ kv : Entity, reviewable_of_type ty u kv.2) st)
             ≤ DEFAULT_QUERY_LIMIT →
             ∀ id (e : StoredSuggestion),
               (id, e) ∈ r
               ↔ st !! id = Some e ∧ status e = STATUS_IN_REVIEW
                 ∧ suggestion_type e = ty ∧ author_id e ≠ u))
    ∧ (ty ∉ SUGGESTION_TYPE_CHOICES ∨ ¬ indexable u →
       get_in_review_suggestions_of_suggestion_type ty u st
       = (inl BadValueError, st)).
Proof.
  intros ty u st. split; [|apply in_review_of_type_rejected].
  intros Hty Hu. eexists. split; [by apply in_review_of_type_run|].
  pose proof (selects_found (reviewable_of_type ty u)
                (Some DEFAULT_QUERY_LIMIT) st) as Hsel.
  simpl in Hsel. split; [exact Hsel|].
  intros Hle id e. split.
  - intros Hin. destruct Hsel as (_ & Hsound & _).
    destruct (Hsound id e Hin) as (Hst & (Hs & Ht) & Ha). done.
  - intros (Hst & Hs & Ht & Ha).
    apply (selects_complete (reviewable_of_type ty u)
             (Some DEFAULT_QUERY_LIMIT) st); [done..|].
    by repeat split.
Qed.

(** X4: for a suggestion type among the choices and a user id that is
    text of at most 1500 bytes,
    [get_user_created_suggestions_of_suggestion_type] returns entities of
    the store, each once, all in review, of that type and written by the
    user, as many as the query limit allows, and all of them when the limit
    does not cut the result short; for any other type or user id it raises
    the store's BadValueError. The store is left as it was. *)
Theorem get_user_created_suggestions_of_suggestion_type_spec :
  ∀ ty u (st : Datastore),
    (ty ∈ SUGGESTION_TYPE_CHOICES → indexable u →
     ∃ r, get_user_created_suggestions_of_suggestion_type ty u st
          = (inr r, st)
          ∧ selects (Some DEFAULT_QUERY_LIMIT) (created_of_type ty u) st r
          ∧ (size (filter (λ kv : Entity, created_of_type ty u kv.2) st)
             ≤ DEFAULT_QUERY_LIMIT →
             ∀ id (e : StoredSuggestion),
               (id, e) ∈ r
               ↔ st !! id = Some e ∧ status e = STATUS_IN_REVIEW
                 ∧ suggestion_type e = ty ∧ author_id e = u))
    ∧ (ty ∉ SUGGESTION_TYPE_CHOICES ∨ ¬ indexable u →
       get_user_created_suggestions_of_suggestion_type ty u st
       = (inl BadValueError, st)).
Proof.
  intros ty u st. split; [|apply user_created_of_type_rejected].
  intros Hty Hu. eexists. split; [by apply user_created_of_type_run|].
  pose proof (selects_found (created_of_type ty u)
                (Some DEFAULT_QUERY_LIMIT) st) as Hsel.
  simpl in Hsel. split; [exact Hsel|].
  intros Hle id e. split.
  - intros Hin. destruct Hsel as (_ & Hsound & _).
    destruct (Hsound id e Hin) as (Hst & (Hs & Ht) & Ha). done.
  - intros (Hst & Hs & Ht & Ha).
    apply (selects_complete (created_of_type ty u)
             (Some DEFAULT_QUERY_LIMIT) st); [done..|].
    by repeat split.
Qed.

Lemma size_filter_le_of_impl (P Q : StoredSuggestion → Prop)
    `{!∀ e, Decision (P e)} `{!∀ e, Decision (Q e)} (st : Datastore) :
  (∀ e, P e → Q e) →
  size (filter (λ kv : Entity, P kv.2) st)
  ≤ size (filter (λ kv : Entity, Q kv.2) st).
Proof.
  intros Himpl. apply map_subseteq_size, map_subseteq_spec.
  intros id e. rewrite !map_lookup_filter_Some. simpl.
  intros [Hst HP]. split; [done|]. by apply Himpl.
Qed.

(** X5: for the same suggestion type and user, no suggestion is returned
    both to the user as reviewer and to the user as author; when the type
    is among the choices, the user id is text of at most 1500 bytes and the
    in-review suggestions of the type number at most the query limit, each
    of them is returned by exactly one of the two queries. *)
Theorem reviewable_and_created_partition :
  ∀ ty u (st : Datastore),
    (∀ x, x ∈ returned (get_in_review_suggestions_of_suggestion_type ty u st) →
          x ∉ returned
                (get_user_created_suggestions_of_suggestion_type ty u st))
    ∧ (ty ∈ SUGGESTION_TYPE_CHOICES → indexable u →
       size (filter (λ kv : Entity, in_review_of_type ty kv.2) st)
       ≤ DEFAULT_QUERY_LIMIT →
       ∀ id (e : StoredSuggestion),
         st !! id = Some e → status e = STATUS_IN_REVIEW →
         suggestion_type e = ty →
         (id, e) ∈ returned
                     (get_in_review_suggestions_of_suggestion_type ty u st)
         ∨ (id, e) ∈ returned
                       (get_user_created_suggestions_of_suggestion_type
                          ty u st)).
Proof.
  intros ty u st.
  destruct (decide (ty ∈ SUGGESTION_TYPE_CHOICES ∧ indexable u))
    as [[Hty Hu]|Hbad].
  - rewrite in_review_of_type_run, user_created_of_type_run by done.
    unfold returned. simpl. split.
    + intros [id e] Hin Hin'.
      apply subseteq_take, (found_elem_of (reviewable_of_type ty u)) in Hin
        as (_ & _ & Ha).
      apply subseteq_take, (found_elem_of (created_of_type ty u)) in Hin'
        as (_ & _ & Ha').
      done.
    + intros _ _ Hle id e Hst Hs Ht.
      destruct (decide (author_id e = u)) as [Ha|Ha].
      * right. rewrite take_ge.
        { apply (found_elem_of (created_of_type ty u)). by repeat split. }
        rewrite (found_length (created_of_type ty u)).
        etrans; [|exact Hle].
        apply (size_filter_le_of_impl (created_of_type ty u)). by intros e' [? _].
      * left. rewrite take_ge.
        { apply (found_elem_of (reviewable_of_type ty u)). by repeat split. }
        rewrite (found_length (reviewable_of_type ty u)).
        etrans; [|exact Hle].
        apply (size_filter_le_of_impl (reviewable_of_type ty u)).
        by intros e' [? _].
  - split; [|by intros Hty Hu; destruct Hbad].
    intros x. rewrite in_review_of_type_rejected.
    + unfold returned. simpl. by intros ?%elem_of_nil.
    + destruct (decide (ty ∈ SUGGESTION_TYPE_CHOICES)); [|by left].
      right. intros Hu. by apply Hbad.
Qed.

(** ** Score categories in use *)

Lemma score_categories_elem_of (st : Datastore) c :
  c ∈ returned (get_all_score_categories st)
  ↔ ∃ id (e : StoredSuggestion), st !! id = Some e ∧ score_category e = c.
Proof.
  unfold returned, get_all_score_categories. simpl.
  rewrite elem_of_remove_dups, list_elem_of_fmap. split.
  - intros ([id e] & -> & Hin%elem_of_map_to_list). by exists id, e.
  - intros (id & e & Hst & <-). exists (id, e).
    split; [done|]. by apply elem_of_map_to_list.
Qed.

(** X6: [get_all_score_categories] never raises, leaves the store as it
    was, and returns without repetition exactly the score categories of the
    stored suggestions, whatever their status. *)
Theorem get_all_score_categories_spec :
  ∀ st : Datastore,
    ∃ r, get_all_score_categories st = (inr r, st)
         ∧ NoDup r
         ∧ ∀ c, c ∈ r
                ↔ ∃ id (e : StoredSuggestion),
                    st !! id = Some e ∧ score_category e = c.
Proof.
  intros st. eexists. split; [reflexivity|]. split.
  - apply NoDup_remove_dups.
  - intros c. apply (score_categories_elem_of st c).
Qed.

(** X7: after a successful creation the score categories in use are the
    ones in use before together with the score category given to
    [create]. *)
Theorem create_adds_score_category :
  ∀ sty tty tid tv sts aid frid cc sc thread_id now (st st' : Datastore),
    create sty tty tid tv sts aid frid cc sc thread_id now st = (inr tt, st') →
    ∀ c, c ∈ returned (get_all_score_categories st')
         ↔ c = sc ∨ c ∈ returned (get_all_score_categories st).
Proof.
  intros sty tty tid tv sts aid frid cc sc thread_id now st st' Hrun c.
  apply create_inr in Hrun as (Hfresh & -> & Hm).
  rewrite !score_categories_elem_of. split.
  - intros (id & e & Hst & Hc).
    destruct (decide (id = thread_id)) as [->|Hne].
    + rewrite lookup_insert_eq in Hst. injection Hst as <-. by left.
    + rewrite lookup_insert_ne in Hst by done. right. by exists id, e.
  - intros [->|(id & e & Hst & Hc)].
    + eexists _, _. split; [apply lookup_insert_eq|done].
    + exists id, e. split; [|done]. rewrite lookup_insert_ne; [done|].
      intros <-. by rewrite Hfresh in Hst.
Qed.

(** ** Reading does not write *)

Lemma read_only_ret {A : Type} (x : A) : read_only (mret x).
Proof. by intros st. Qed.

Lemma read_only_raise {A : Type} e : read_only (raise e : M A).
Proof. by intros st. Qed.

Lemma read_only_lift {A : Type} (r : Error + A) : read_only (lift r).
Proof. by intros st. Qed.

Lemma read_only_fetch q limit : read_only (fetch q limit).
Proof. by intros st. Qed.

Lemma read_only_bind {A B : Type} (m : M A) (f : A → M B) :
  read_only m → (∀ x, read_only (f x)) → read_only (m ≫= f).
Proof.
  intros Hm Hf st. unfold mbind, M_bind. specialize (Hm st).
  destruct (m st) as [[e|x] st']; simpl in *; subst; [done|apply Hf].
Qed.

Lemma read_only_loop qfv : ∀ q, read_only (query_suggestions_loop q qfv).
Proof.
  induction qfv as [|[field value] rest IH]; intros q; simpl.
  - apply read_only_ret.
  - case_bool_decide; [|apply read_only_raise].
    apply read_only_bind; [apply read_only_lift|]. intros p.
    apply read_only_bind; [apply read_only_lift|]. intros node. apply IH.
Qed.

(** X8: none of the querying methods writes: whether it returns or raises,
    the generic query, the stale scan, the three routing queries, the
    export, the reference check and the listing of score categories leave
    the store exactly as it was. *)
Theorem queries_are_read_only :
  (∀ qfv, read_only (query_suggestions qfv))
  ∧ (∀ thr now, read_only (get_all_stale_suggestions thr now))
  ∧ (∀ cs u, read_only (get_in_review_suggestions_in_score_categories cs u))
  ∧ (∀ ty u, read_only (get_in_review_suggestions_of_suggestion_type ty u))
  ∧ (∀ ty u, read_only (get_user_created_suggestions_of_suggestion_type ty u))
  ∧ (∀ u, read_only (export_data u))
  ∧ (∀ u, read_only (has_reference_to_user_id u))
  ∧ read_only get_all_score_categories.
Proof.
  repeat apply conj.
  - intros qfv. apply read_only_bind; [apply read_only_loop|].
    intros q. apply read_only_fetch.
  - intros thr now. apply read_only_bind; [apply read_only_lift|].
    intros n. apply read_only_fetch.
  - intros cs u. unfold get_in_review_suggestions_in_score_categories.
    destruct (decide (length cs = 0)); [apply read_only_raise|].
    repeat (apply read_only_bind; [apply read_only_lift|]; intros ?).
    apply read_only_fetch.
  - intros ty u.
    repeat (apply read_only_bind; [apply read_only_lift|]; intros ?).
    apply read_only_fetch.
  - intros ty u.
    repeat (apply read_only_bind; [apply read_only_lift|]; intros ?).
    apply read_only_fetch.
  - intros u. apply read_only_bind; [apply read_only_lift|]. intros n.
    apply read_only_bind; [apply read_only_fetch|]. intros l.
    apply read_only_ret.
  - intros u.
    repeat (apply read_only_bind; [apply read_only_lift|]; intros ?).
    apply read_only_bind; [by intros st|]. intros found. apply read_only_ret.
  - by intros st.
Qed.

(** ** Outcomes of the generic query *)

(** X9: the generic query returns exactly when every pair has an allowed
    field and a value the field accepts (text of at most 1500 bytes, among
    the choices of the field when it has any); when it raises, the error is
    the store's BadValueError or InvalidField for a field of the list that
    is not allowed: the attribute lookup by name never fails. *)
Theorem query_suggestions_outcome :
  ∀ qfv (st : Datastore),
    ((∃ r, query_suggestions qfv st = (inr r, st))
     ↔ Forall (λ fv : string * string,
                 fv.1 ∈ ALLOWED_QUERY_FIELDS ∧ accepted_value fv.1 fv.2) qfv)
    ∧ (∀ e, (query_suggestions qfv st).1 = inl e →
            e = BadValueError
            ∨ ∃ field, e = InvalidField field
                       ∧ (field ∉ ALLOWED_QUERY_FIELDS)
                       ∧ field ∈ qfv.*1).
Proof.
  intros qfv st.
  destruct (decide (Forall admissible qfv)) as [Hadm|Hbad].
  - rewrite query_suggestions_admissible by done. split.
    + split; [done|]. intros _. by eexists.
    + simpl. discriminate.
  - destruct (first_failing admissible qfv Hbad)
      as (pre & [field value] & post & Hqfv & Hpre & Hfv).
    destruct (decide (field ∈ ALLOWED_QUERY_FIELDS)) as [Hin|Hout].
    + assert (query_suggestions qfv st = (inl BadValueError, st)) as Hrun.
      { unfold query_suggestions. apply bind_inl. rewrite Hqfv.
        apply loop_rejected; [done..|]. intros Hacc. apply Hfv. by split. }
      rewrite Hrun. split.
      * split; [by intros [r ?]|done].
      * simpl. intros e [= <-]. by left.
    + assert (query_suggestions qfv st = (inl (InvalidField field), st))
        as Hrun.
      { unfold query_suggestions. apply bind_inl. rewrite Hqfv.
        by apply loop_disallowed. }
      rewrite Hrun. split.
      * split; [by intros [r ?]|done].
      * simpl. intros e [= <-]. right. exists field.
        split; [done|]. split; [done|].
        rewrite Hqfv, fmap_app, fmap_cons. simpl.
        apply elem_of_app. right. by left.
Qed.

Lemma filter_none {A : Type} (P : A → Prop) `{!∀ x, Decision (P x)}
    (l : list A) :
  (∀ x, x ∈ l → ¬ P x) → filter P l = [].
Proof.
  intros Hnone. destruct (filter P l) as [|x l'] eqn:Hf; [done|].
  assert (x ∈ filter P l) as Hx by (rewrite Hf; by left).
  apply list_elem_of_filter in Hx as [HP Hx]. by destruct (Hnone x Hx).
Qed.

(** X10: two equality tests on the same field with different values can
    never both hold: when the fields are allowed and the values are ones
    the fields accept, the query returns no suggestion, whatever the
    store. *)
Theorem query_suggestions_contradictory_filters :
  ∀ qfv field v1 v2 (st : Datastore),
    Forall (λ fv : string * string,
              fv.1 ∈ ALLOWED_QUERY_FIELDS ∧ accepted_value fv.1 fv.2) qfv →
    (field, v1) ∈ qfv → (field, v2) ∈ qfv → v1 ≠ v2 →
    query_suggestions qfv st = (inr [], st).
Proof.
  intros qfv field v1 v2 st Hadm H1 H2 Hne.
  rewrite query_suggestions_admissible by exact Hadm.
  rewrite filter_none; [by rewrite take_nil|].
  intros [id e] _ Hsat. simpl in Hsat. unfold satisfies in Hsat.
  rewrite Forall_forall in Hsat.
  pose proof (Hsat _ H1) as Hv1. pose proof (Hsat _ H2) as Hv2.
  simpl in *. congruence.
Qed.

(** X11: only the set of (field, value) pairs matters: two filter lists
    with allowed fields and the same pairs, in any order and with any
    repetitions, give the same outcome. *)
Theorem query_suggestions_same_pairs :
  ∀ qfv qfv' (st : Datastore),
    Forall (λ fv : string * string, fv.1 ∈ ALLOWED_QUERY_FIELDS) qfv →
    (∀ fv, fv ∈ qfv ↔ fv ∈ qfv') →
    query_suggestions qfv' st = query_suggestions qfv st.
Proof.
  intros qfv qfv' st Hallowed Hsame.
  assert (∀ P : string * string → Prop, Forall P qfv ↔ Forall P qfv')
    as Hforall.
  { intros P. rewrite !Forall_forall. split; intros HP fv Hfv; apply HP;
      by apply Hsame. }
  assert (Forall (λ fv : string * string, fv.1 ∈ ALLOWED_QUERY_FIELDS) qfv')
    as Hallowed' by by apply Hforall.
  destruct (decide (Forall admissible qfv)) as [Hadm|Hbad].
  - assert (Forall admissible qfv') as Hadm' by by apply Hforall.
    rewrite !query_suggestions_admissible by done. do 3 f_equal.
    apply list_filter_iff. intros [id e]. unfold satisfies. simpl.
    symmetry. apply Hforall.
  - assert (¬ Forall admissible qfv') as Hbad'.
    { intros Hadm'. apply Hbad. by apply Hforall. }
    by rewrite !query_suggestions_rejected.
Qed.

Lemma score_categories_same_members cs cs' u (st : Datastore) :
  cs ≠ [] → (∀ c, c ∈ cs ↔ c ∈ cs') →
  get_in_review_suggestions_in_score_categories cs' u st
  = get_in_review_suggestions_in_score_categories cs u st.
Proof.
  intros Hcs Hsame.
  assert (cs' ≠ []) as Hcs'.
  { destruct cs as [|c cs]; [done|]. intros ->.
    by apply (elem_of_nil c), Hsame; left. }
  assert (Forall indexable cs ↔ Forall indexable cs') as Hidx.
  { rewrite !Forall_forall. split; intros H c Hc; apply H; by apply Hsame. }
  destruct (decide (Forall indexable cs ∧ indexable u)) as [[Hc Hu]|Hbad].
  - rewrite !in_score_categories_run by (done || by apply Hidx).
    unfold fetch. do 3 f_equal.
    apply list_filter_iff. intros [id e]. simpl.
    rewrite !query_holds_reviewable. unfold reviewable.
    by rewrite Hsame.
  - rewrite !in_score_categories_rejected; [done..|].
    by rewrite <- Hidx.
Qed.

(** X12: the list of score categories is used as a set: given two
    non-empty lists with the same members, in any order and with any
    repetitions, the two calls raise the same error or both return, one as
    many suggestions as the other, and the same suggestions when the query
    limit does not cut the result short. *)
Theorem score_categories_as_set :
  ∀ cs cs' u (st : Datastore),
    cs ≠ [] → (∀ c, c ∈ cs ↔ c ∈ cs') →
    (∀ e, (get_in_review_suggestions_in_score_categories cs' u st).1 = inl e
          ↔ (get_in_review_suggestions_in_score_categories cs u st).1 = inl e)
    ∧ length (returned
                (get_in_review_suggestions_in_score_categories cs' u st))
      = length (returned
                  (get_in_review_suggestions_in_score_categories cs u st))
    ∧ (size (filter (λ kv : Entity, reviewable cs u kv.2) st)
       ≤ DEFAULT_QUERY_LIMIT →
       ∀ x, x ∈ returned
                  (get_in_review_suggestions_in_score_categories cs' u st)
            ↔ x ∈ returned
                    (get_in_review_suggestions_in_score_categories cs u st)).
Proof.
  intros cs cs' u st Hcs Hsame.
  by rewrite (score_categories_same_members cs cs' u st Hcs Hsame).
Qed.

(** ** Staleness over time *)

Lemma stale_elem_of thr now (st : Datastore) id (e : StoredSuggestion) :
  (id, e) ∈ returned (get_all_stale_suggestions thr now st)
  ↔ st !! id = Some e ∧ stale thr now e.
Proof.
  destruct (stale_selects thr now st) as (r & Hr & Hsel).
  unfold returned. rewrite Hr. simpl. split.
  - apply Hsel.
  - intros [Hst HP]. by eapply (selects_complete (stale thr now)).
Qed.

(** X13: raising the threshold or asking earlier can only remove stale
    suggestions: what is stale under a threshold at a time is stale under
    every smaller threshold and at every later time. *)
Theorem stale_monotone :
  ∀ thr thr' now now' (st : Datastore) x,
    (thr ≤ thr')%Z → (now' ≤ now)%Z →
    x ∈ returned (get_all_stale_suggestions thr' now' st) →
    x ∈ returned (get_all_stale_suggestions thr now st).
Proof.
  intros thr thr' now now' st [id e] Hthr Hnow.
  rewrite !stale_elem_of. unfold stale. intros (Hst & Hs & Hage).
  repeat split; [done..|]. lia.
Qed.

(** X14: a suggestion created at time [now] is returned as stale at time
    [now'] under a threshold exactly when it was created in review and
    more than the threshold has passed since; in particular never at the
    time of its creation under a threshold that is not negative. The
    staleness of the other suggestions is not affected. *)
Theorem create_then_stale :
  ∀ sty tty tid tv sts aid frid cc sc thread_id now (st st' : Datastore),
    create sty tty tid tv sts aid frid cc sc thread_id now st = (inr tt, st') →
    ∀ thr now',
      (∀ e : StoredSuggestion,
          (thread_id, e) ∈ returned (get_all_stale_suggestions thr now' st')
          ↔ st' !! thread_id = Some e ∧ sts = STATUS_IN_REVIEW
            ∧ (now' - now > thr * 1000)%Z)
      ∧ ((0 ≤ thr)%Z →
         ∀ e : StoredSuggestion,
           (thread_id, e) ∉ returned (get_all_stale_suggestions thr now st'))
      ∧ (∀ id (e : StoredSuggestion),
            id ≠ thread_id →
            (id, e) ∈ returned (get_all_stale_suggestions thr now' st')
            ↔ (id, e) ∈ returned (get_all_stale_suggestions thr now' st)).
Proof.
  intros sty tty tid tv sts aid frid cc sc thread_id now st st' Hrun thr now'.
  apply create_inr in Hrun as (Hfresh & -> & Hm).
  assert (∀ t (e : StoredSuggestion),
            (thread_id, e) ∈ returned
               (get_all_stale_suggestions thr t
                  (<[thread_id :=
                       {| model := {| suggestion_type := sty;
                                      target_type := tty; target_id := tid;
                                      target_version_at_submission := tv;
                                      status := sts; author_id := aid;
                                      final_reviewer_id := frid;
                                      change_cmd := cc;
                                      score_category := sc |};
                          last_updated := now |}]> st))
            ↔ <[thread_id :=
                  {| model := {| suggestion_type := sty;
                                 target_type := tty; target_id := tid;
                                 target_version_at_submission := tv;
                                 status := sts; author_id := aid;
                                 final_reviewer_id := frid;
                                 change_cmd := cc;
                                 score_category := sc |};
                     last_updated := now |}]> st !! thread_id = Some e
              ∧ sts = STATUS_IN_REVIEW ∧ (t - now > thr * 1000)%Z) as Hnew.
  { intros t e. rewrite stale_elem_of, lookup_insert_eq. unfold stale. split.
    - intros (Heq & Hs & Hage). injection Heq as <-. simpl in *. done.
    - intros (Heq & Hs & Hage). injection Heq as <-. simpl. done. }
  split; [apply Hnew|]. split.
  - intros Hthr e Hin. apply Hnew in Hin as (_ & _ & Hage). lia.
  - intros id e Hne. rewrite !stale_elem_of.
    by rewrite lookup_insert_ne.
Qed.

(** ** Export after a creation *)

(** X15: a successful creation adds to the export of its author one entry,
    under the thread id, holding the suggestion type, target type, target
    id, target version, status and change that were given to [create], and
    leaves every other entry and the export of every other user as they
    were (the exports of the user ids that are text of at most 1500 bytes,
    the ones [export_data] takes). *)
Theorem create_then_export :
  ∀ sty tty tid tv sts aid frid cc sc thread_id now (st st' : Datastore),
    create sty tty tid tv sts aid frid cc sc thread_id now st = (inr tt, st') →
    ∀ u, indexable u →
      ∃ d d',
        export_data u st = (inr d, st)
        ∧ export_data u st' = (inr d', st')
        ∧ d' = if decide (aid = u)
               then <[thread_id :=
                        list_to_map
                          [("suggestion_type", JString sty);
                           ("target_type", JString tty);
                           ("target_id", JString tid);
                           ("target_version_at_submission", JInt tv);
                           ("status", JString sts);
                           ("change_cmd", cc)]]> d
               else d.
Proof.
  intros sty tty tid tv sts aid frid cc sc thread_id now st st' Hrun u Hu.
  apply create_inr in Hrun as (Hfresh & -> & _).
  destruct (export_data_lookup u st Hu) as (d & Hd & Hlook).
  destruct (export_data_lookup u
              (<[thread_id :=
                   {| model := {| suggestion_type := sty;
                                  target_type := tty; target_id := tid;
                                  target_version_at_submission := tv;
                                  status := sts; author_id := aid;
                                  final_reviewer_id := frid;
                                  change_cmd := cc;
                                  score_category := sc |};
                      last_updated := now |}]> st) Hu)
    as (d' & Hd' & Hlook').
  exists d, d'. split; [done|]. split; [done|].
  apply map_eq. intros id. rewrite Hlook', map_lookup_filter.
  destruct (decide (id = thread_id)) as [->|Hne].
  - rewrite lookup_insert_eq. simpl.
    destruct (decide (aid = u)) as [Haid|Haid].
    + rewrite option_guard_True by done. by rewrite lookup_insert_eq.
    + rewrite option_guard_False by done. simpl.
      by rewrite Hlook, map_lookup_filter, Hfresh.
  - rewrite lookup_insert_ne by done.
    destruct (decide (aid = u)).
    + rewrite lookup_insert_ne by done. by rewrite Hlook, map_lookup_filter.
    + by rewrite Hlook, map_lookup_filter.
Qed.

End GeneralSuggestionModel.

(** ** The branch cutting script *)

Lemma match_version_Some s a b c :
  match_version s = Some (a, b, c)
  ↔ ∃ rest, is_digit a = true ∧ is_digit b = true ∧ is_digit c = true
            ∧ s = dotted a b c rest.
Proof.
  unfold match_version, dotted. split.
  - destruct s as [|a' [|d1 [|b' [|d2 [|c' rest]]]]]; try done.
    destruct (is_digit a') eqn:Ha; simpl; [|done].
    destruct (Ascii.eqb d1 ".") eqn:Hd1; simpl; [|done].
    destruct (is_digit b') eqn:Hb; simpl; [|done].
    destruct (Ascii.eqb d2 ".") eqn:Hd2; simpl; [|done].
    destruct (is_digit c') eqn:Hc; simpl; [|done].
    apply Ascii.eqb_eq in Hd1, Hd2. intros [= <- <- <-]. subst.
    by exists rest.
  - intros (rest & Ha & Hb & Hc & ->). by rewrite Ha, Hb, Hc.
Qed.

Lemma match_tag_Some s a b c :
  match_tag s = Some (a, b, c)
  ↔ ∃ rest, is_digit a = true ∧ is_digit b = true ∧ is_digit c = true
            ∧ s = String "v" (dotted a b c rest).
Proof.
  unfold match_tag. split.
  - destruct s as [|v s]; [done|].
    destruct (Ascii.eqb v "v") eqn:Hv; [|done].
    apply Ascii.eqb_eq in Hv as ->.
    intros (rest & Ha & Hb & Hc & ->)%match_version_Some. by exists rest.
  - intros (rest & Ha & Hb & Hc & ->). rewrite Ascii.eqb_refl.
    apply match_version_Some. by exists rest.
Qed.

Lemma int_of_digit_range c :
  is_digit c = true → (0 ≤ int_of_digit c ≤ 9)%Z.
Proof.
  unfold is_digit, int_of_digit.
  intros [H1%Nat.leb_le H2%Nat.leb_le]%andb_true_iff. lia.
Qed.

Lemma int_of_digit_inj a b : int_of_digit a = int_of_digit b → a = b.
Proof.
  unfold int_of_digit. intros Heq.
  rewrite <- (ascii_nat_embedding a), <- (ascii_nat_embedding b).
  f_equal. lia.
Qed.

Lemma target_version_consistent_iff getcode tag version :
  _verify_target_version_is_consistent_with_latest_released_version
    getcode tag version = inr tt
  ↔ getcode = 200%Z
    ∧ ∃ major minor patch minor' patch' rest rest',
        is_digit major = true ∧ is_digit minor = true
        ∧ is_digit patch = true ∧ is_digit minor' = true
        ∧ is_digit patch' = true
        ∧ tag = String "v" (dotted major minor patch rest)
        ∧ version = dotted major minor' patch' rest'
        ∧ ((minor' = minor
            ∧ int_of_digit patch' = (int_of_digit patch + 1)%Z)
           ∨ (int_of_digit minor' = (int_of_digit minor + 1)%Z
              ∧ int_of_digit patch' = 0%Z)).
Proof.
  unfold _verify_target_version_is_consistent_with_latest_released_version.
  split.
  - destruct (decide (getcode ≠ 200%Z)) as [|Hcode]; [done|].
    destruct (match_tag tag) as [[[pM pm] pp]|] eqn:Htag; [|done].
    destruct (match_version version) as [[[cM cm] cp]|] eqn:Hver; [|done].
    apply match_tag_Some in Htag as (rest & HpM & Hpm & Hpp & ->).
    apply match_version_Some in Hver as (rest' & HcM & Hcm & Hcp & ->).
    destruct (Ascii.eqb pM cM) eqn:HM; simpl; [|done].
    apply Ascii.eqb_eq in HM as ->.
    destruct (Ascii.eqb pm cm) eqn:Hm.
    + apply Ascii.eqb_eq in Hm as ->.
      destruct (int_of_digit cp =? int_of_digit pp + 1)%Z eqn:Hp;
        simpl; [|done].
      apply Z.eqb_eq in Hp. intros _.
      split; [by destruct (decide (getcode = 200%Z))|].
      exists cM, cm, pp, cm, cp, rest, rest'.
      repeat split; try done. by left.
    + destruct (int_of_digit cm =? int_of_digit pm + 1)%Z eqn:Hmm;
        simpl; [|done].
      destruct (int_of_digit cp =? 0)%Z eqn:Hp; simpl; [|done].
      apply Z.eqb_eq in Hmm, Hp. intros _.
      split; [by destruct (decide (getcode = 200%Z))|].
      exists cM, pm, pp, cm, cp, rest, rest'.
      repeat split; try done. by right.
  - intros (-> & M & m & pp & m' & p' & rest & rest'
            & HM & Hm & Hpp & Hm' & Hp' & -> & -> & Hcase).
    destruct (decide (200%Z ≠ 200%Z)) as [|_]; [done|].
    rewrite (proj2 (match_tag_Some _ M m pp)) by by exists rest.
    rewrite (proj2 (match_version_Some _ M m' p')) by by exists rest'.
    rewrite Ascii.eqb_refl. simpl.
    destruct Hcase as [[-> Hp]|[Hmm Hp]].
    + rewrite Ascii.eqb_refl, Hp, Z.eqb_refl. simpl.
      pose proof (int_of_digit_range pp Hpp).
      pose proof (int_of_digit_range p' Hp').
      assert ((int_of_digit pp + 1 <? 10)%Z = true) as ->; [|done].
      apply Z.ltb_lt. lia.
    + assert (Ascii.eqb m m' = false) as ->.
      { apply Ascii.eqb_neq. intros ->. lia. }
      by rewrite Hmm, Hp, !Z.eqb_refl.
Qed.





Section cut_release_or_hotfix_branch.

Variables RELEASE_BRANCH_TYPE HOTFIX_BRANCH_TYPE : string.

(** X16: [new_version_type] returns its argument unchanged or raises
    ArgumentTypeError; it accepts exactly the strings that start with a
    digit, a dot, a digit, a dot and a digit, so whatever follows an
    accepted version is accepted with it. *)
Theorem new_version_type_spec :
  ∀ arg,
    (new_version_type arg = inr arg
     ∨ new_version_type arg = inl ArgumentTypeError)
    ∧ (new_version_type arg = inr arg
       ↔ ∃ a b c rest, is_digit a = true ∧ is_digit b = true
                       ∧ is_digit c = true ∧ arg = dotted a b c rest)
    ∧ (∀ suffix, new_version_type arg = inr arg →
                 new_version_type (arg +:+ suffix) = inr (arg +:+ suffix)).
Proof.
  intros arg.
  assert (new_version_type arg = inr arg
          ↔ ∃ a b c rest, is_digit a = true ∧ is_digit b = true
                          ∧ is_digit c = true ∧ arg = dotted a b c rest)
    as Hiff.
  { unfold new_version_type. split.
    - destruct (match_version arg) as [[[a b] c]|] eqn:Hm; [|done].
      intros _. apply match_version_Some in Hm as (rest & ?). by exists a, b, c, rest.
    - intros (a & b & c & rest & Ha & Hb & Hc & ->).
      rewrite (proj2 (match_version_Some _ a b c)); [done|]. by exists rest. }
  split; [|split; [exact Hiff|]].
  - unfold new_version_type. destruct (match_version arg); [by left|by right].
  - intros suffix (a & b & c & rest & Ha & Hb & Hc & ->)%Hiff.
    unfold new_version_type.
    rewrite (proj2 (match_version_Some _ a b c)); [done|].
    by exists (rest +:+ suffix).
Qed.


(** X17: a hotfix branch is cut from the branch the previous run
    produced: for a hotfix number other than 0, the branch to cut from, and
    the branch whose checks are asked about, is the new branch name of the
    same version with the hotfix number before (the release branch for
    hotfix 1). *)
Theorem hotfix_is_cut_from_previous_branch :
  ∀ version n,
    n ≠ 0%Z →
    branch_to_cut_from RELEASE_BRANCH_TYPE HOTFIX_BRANCH_TYPE version n
    = NEW_BRANCH_NAME RELEASE_BRANCH_TYPE HOTFIX_BRANCH_TYPE version (n - 1)
    ∧ branch_to_check RELEASE_BRANCH_TYPE HOTFIX_BRANCH_TYPE version n
      = branch_to_cut_from RELEASE_BRANCH_TYPE HOTFIX_BRANCH_TYPE version n.
Proof.
  intros version n Hn. unfold branch_to_cut_from, branch_to_check,
    NEW_BRANCH_NAME.
  destruct (decide (n = 0%Z)) as [|_]; [done|].
  destruct (decide (n = 1%Z)) as [->|Hn1].
  - by destruct (decide ((1 - 1)%Z = 0%Z)).
  - destruct (decide ((n - 1)%Z = 0%Z)) as [Heq|_]; [lia|done].
Qed.


(** X19: the target version is consistent with the latest release exactly
    when the response has status 200, the tag and the target start with
    [vX.Y.Z] and [X.Y'.Z'] for single digits with the same major version,
    and either the minor version is the same and the patch one more, or
    the minor is one more and the patch 0. Any other status fails the
    fetch, and a target that [new_version_type] accepted always has its
    three groups. *)
Theorem target_version_consistency_spec :
  ∀ getcode tag version,
    (_verify_target_version_is_consistent_with_latest_released_version
       getcode tag version = inr tt
     ↔ getcode = 200%Z
       ∧ ∃ major minor patch minor' patch' rest rest',
           is_digit major = true ∧ is_digit minor = true
           ∧ is_digit patch = true ∧ is_digit minor' = true
           ∧ is_digit patch' = true
           ∧ tag = String "v" (dotted major minor patch rest)
           ∧ version = dotted major minor' patch' rest'
           ∧ ((minor' = minor
               ∧ int_of_digit patch' = (int_of_digit patch + 1)%Z)
              ∨ (int_of_digit minor' = (int_of_digit minor + 1)%Z
                 ∧ int_of_digit patch' = 0%Z)))
    ∧ (getcode ≠ 200%Z →
       _verify_target_version_is_consistent_with_latest_released_version
         getcode tag version = inl FetchFailed)
    ∧ (new_version_type version = inr version →
       _verify_target_version_is_consistent_with_latest_released_version
         getcode tag version ≠ inl NoneHasNoGroup).
Proof.
  intros getcode tag version.
  split; [apply target_version_consistent_iff|]. split.
  - intros Hcode.
    unfold _verify_target_version_is_consistent_with_latest_released_version.
    by destruct (decide (getcode ≠ 200%Z)).
  - unfold new_version_type,
      _verify_target_version_is_consistent_with_latest_released_version.
    destruct (match_version version) as [[[cM cm] cp]|]; [|done]. intros _.
    destruct (decide (getcode ≠ 200%Z)); [done|].
    destruct (match_tag tag) as [[[pM pm] pp]|]; [|done].
    destruct (negb (Ascii.eqb pM cM)); [done|].
    destruct (Ascii.eqb pm cm).
    + destruct (negb _); [done|]. by destruct (negb _).
    + destruct (negb _); [done|]. by destruct (negb _).
Qed.

(** X20: versions have single digits, so the sequence of releases can get
    stuck: when the check passes, the target differs from the latest
    release; after a release with patch 9 only the next minor version with
    patch 0 passes; after a release with minor 9 only the next patch
    passes; and after a release [X.9.9] no target passes. *)
Theorem target_version_dead_ends :
  ∀ getcode major minor patch rest version,
    _verify_target_version_is_consistent_with_latest_released_version
      getcode (String "v" (dotted major minor patch rest)) version = inr tt →
    (¬ ∃ rest', version = dotted major minor patch rest')
    ∧ (patch = "9"%char →
       ∃ minor' rest',
         version = dotted major minor' "0" rest'
         ∧ int_of_digit minor' = (int_of_digit minor + 1)%Z)
    ∧ (minor = "9"%char →
       ∃ patch' rest',
         version = dotted major "9" patch' rest'
         ∧ int_of_digit patch' = (int_of_digit patch + 1)%Z)
    ∧ ¬ (minor = "9"%char ∧ patch = "9"%char).
Proof.
  intros getcode major minor patch rest version
    (_ & M & m & p & m' & p' & r & r' & HM & Hm & Hp & Hm' & Hp' & Htag
     & -> & Hcase)%target_version_consistent_iff.
  injection Htag as <- <- <- <-.
  pose proof (int_of_digit_range minor Hm) as Rm.
  pose proof (int_of_digit_range patch Hp) as Rp.
  pose proof (int_of_digit_range m' Hm') as Rm'.
  pose proof (int_of_digit_range p' Hp') as Rp'.
  assert (int_of_digit "9" = 9%Z) as H9 by reflexivity.
  assert (int_of_digit "0" = 0%Z) as H0 by reflexivity.
  split; [|split; [|split]].
  - intros [rest' Heq]. injection Heq as <- <- _.
    destruct Hcase as [[_ ?]|[? _]]; lia.
  - intros ->. rewrite H9 in *.
    destruct Hcase as [[_ ?]|[? Hz]]; [lia|].
    exists m', r'. split; [|done].
    rewrite <- H0 in Hz. by apply int_of_digit_inj in Hz as ->.
  - intros ->. rewrite H9 in *.
    destruct Hcase as [[-> ?]|[? _]]; [|lia]. by exists p', r'.
  - intros [-> ->]. rewrite H9 in *. destruct Hcase as [[_ ?]|[? _]]; lia.
Qed.

End cut_release_or_hotfix_branch.

(** ** The assertions of the unit tests

    The tests run with a query limit of 1000, [unicode] values and a
    service that refuses no write. *)

(** The five creations of [setUp], given as status, author, reviewer and
    thread id, build the store [setUp] from the empty one. *)
Example test_setUp :
  foldl (λ (st : Datastore) '(status, author, reviewer, thread),
           (create unicode_values no_refusal
              SUGGESTION_TYPE_EDIT_STATE_CONTENT TARGET_TYPE_EXPLORATION
              "exp1" 1 status author (Some reviewer) (JDict [])
              test_score_category thread test_now st).2)
        ∅
        [(STATUS_IN_REVIEW, "author_1", "reviewer_1",
          "exploration.exp1.thread_1");
         (STATUS_ACCEPTED, "author_2", "reviewer_2",
          "exploration.exp1.thread_2");
         (STATUS_ACCEPTED, "author_2", "reviewer_2",
          "exploration.exp1.thread_3");
         (STATUS_REJECTED, "author_2", "reviewer_3",
          "exploration.exp1.thread_4");
         (STATUS_REJECTED, "author_3", "reviewer_2",
          "exploration.exp1.thread_5")]
  = setUp.
Proof. reflexivity. Qed.

Example test_get_suggestion_by_author :
  length (returned (query_suggestions 1000 unicode_values
                      [("author_id", "author_1")] setUp)) = 1
  ∧ length (returned (query_suggestions 1000 unicode_values
                        [("author_id", "author_2")] setUp)) = 3
  ∧ length (returned (query_suggestions 1000 unicode_values
                        [("author_id", "author_invalid")] setUp)) = 0.
Proof. by vm_compute. Qed.

Example test_get_suggestions_by_status :
  length (returned (query_suggestions 1000 unicode_values
                      [("status", STATUS_IN_REVIEW)] setUp)) = 1
  ∧ length (returned (query_suggestions 1000 unicode_values
                        [("status", STATUS_REJECTED)] setUp)) = 2
  ∧ length (returned (query_suggestions 1000 unicode_values
                        [("status", STATUS_ACCEPTED)] setUp)) = 2.
Proof. by vm_compute. Qed.

Example test_query_suggestions :
  length (returned (query_suggestions 1000 unicode_values
                      queries_by_target_author_status setUp)) = 2
  ∧ (query_suggestions 1000 unicode_values queries_with_invalid_field
       setUp).1
    = inl (InvalidField "invalid_field").
Proof. by vm_compute. Qed.

Example test_get_all_stale_suggestions :
  length (returned (get_all_stale_suggestions unicode_values 0
                      (test_now + 1) setUp)) = 1
  ∧ length (returned
              (get_all_stale_suggestions unicode_values
                 THRESHOLD_TIME_BEFORE_ACCEPT_IN_MSECS (test_now + 1) setUp))
    = 0.
Proof. by vm_compute. Qed.

Example test_export_data_trivial :
  (export_data unicode_values "non_existent_user" setUp).1 = inr ∅.
Proof. by vm_compute. Qed.

(** ** Stores of any size *)

Lemma many_suggestions_size n : size (many_suggestions n) = n.
Proof.
  unfold many_suggestions. rewrite map_size_list_to_map.
  - by rewrite length_fmap, length_seq.
  - rewrite <- list_fmap_compose.
    apply (NoDup_fmap_2 (λ i : nat, pretty i)), NoDup_seq.
Qed.

Lemma many_suggestions_lookup n id (e : StoredSuggestion) :
  many_suggestions n !! id = Some e → e = in_review_suggestion "author_1" 0.
Proof.
  unfold many_suggestions. intros Hin%elem_of_list_to_map_2.
  apply list_elem_of_fmap in Hin as (i & Heq & _). by injection Heq.
Qed.

Lemma many_suggestions_stale n thr now :
  (now > thr * 1000)%Z →
  length (returned (get_all_stale_suggestions unicode_values thr now
                      (many_suggestions n)))
  = n.
Proof.
  intros Hnow.
  destruct (stale_selects unicode_values thr now (many_suggestions n))
    as (r & Hr & _ & _ & Hlen).
  unfold returned. rewrite Hr. simpl. rewrite Hlen.
  rewrite map_filter_id; [apply many_suggestions_size|].
  intros id e ->%many_suggestions_lookup. simpl. split; [done|]. simpl. lia.
Qed.

(** The values of the tests are indexable; [long_value] is not. *)
Lemma long_value_not_indexable : ¬ indexable unicode_values long_value.
Proof. intros [_ Hlen]. vm_compute in Hlen. lia. Qed.

(** ** Instances and counterexamples *)

(** C1, instance: in the store of the tests, creating under the id of the
    first thread fails with DuplicateId and changes nothing; creating under
    a sixth thread id succeeds. *)
Lemma create_all_or_nothing_witness :
  create unicode_values no_refusal SUGGESTION_TYPE_EDIT_STATE_CONTENT
    TARGET_TYPE_EXPLORATION "exp1" 1 STATUS_IN_REVIEW "author_3"
    (Some "reviewer_3") (JDict []) test_score_category
    "exploration.exp1.thread_1" test_now setUp
  = (inl (DuplicateId "exploration.exp1.thread_1"), setUp)
  ∧ size (create unicode_values no_refusal SUGGESTION_TYPE_EDIT_STATE_CONTENT
            TARGET_TYPE_EXPLORATION "exp1" 1 STATUS_IN_REVIEW "author_3"
            (Some "reviewer_3") (JDict []) test_score_category
            "exploration.exp1.thread_6" test_now setUp).2
    = S (size setUp).
Proof.
  split.
  - apply (create_all_or_nothing unicode_values no_refusal
             SUGGESTION_TYPE_EDIT_STATE_CONTENT
             TARGET_TYPE_EXPLORATION "exp1" 1 STATUS_IN_REVIEW "author_3"
             (Some "reviewer_3") (JDict []) test_score_category
             "exploration.exp1.thread_1" test_now setUp).
    compute_done.
  - destruct (create_all_or_nothing unicode_values no_refusal
                SUGGESTION_TYPE_EDIT_STATE_CONTENT
                TARGET_TYPE_EXPLORATION "exp1" 1 STATUS_IN_REVIEW "author_3"
                (Some "reviewer_3") (JDict []) test_score_category
                "exploration.exp1.thread_6" test_now setUp)
      as (_ & Hfresh & _).
    destruct Hfresh as (-> & _ & _ & Hsize);
      [reflexivity|compute_done|discriminate|done|reflexivity|].
    exact Hsize.
Defined.

(** C1, counterexample: under a fresh id creation fails, and stores
    nothing, with a suggestion type that is not among the choices, with an
    author id of 1501 bytes, with no change, and with a version of 2^63. *)
Lemma create_fresh_id_can_fail :
  setUp !! "exploration.exp1.thread_6" = None
  ∧ create unicode_values no_refusal "invalid_suggestion_type"
      TARGET_TYPE_EXPLORATION "exp1" 1 STATUS_IN_REVIEW "author_3"
      (Some "reviewer_3") (JDict []) test_score_category
      "exploration.exp1.thread_6" test_now setUp
    = (inl BadValueError, setUp)
  ∧ create unicode_values no_refusal SUGGESTION_TYPE_EDIT_STATE_CONTENT
      TARGET_TYPE_EXPLORATION "exp1" 1 STATUS_IN_REVIEW long_value
      (Some "reviewer_3") (JDict []) test_score_category
      "exploration.exp1.thread_6" test_now setUp
    = (inl BadValueError, setUp)
  ∧ create unicode_values no_refusal SUGGESTION_TYPE_EDIT_STATE_CONTENT
      TARGET_TYPE_EXPLORATION "exp1" 1 STATUS_IN_REVIEW "author_3"
      (Some "reviewer_3") JNull test_score_category
      "exploration.exp1.thread_6" test_now setUp
    = (inl BadValueError, setUp)
  ∧ create unicode_values no_refusal SUGGESTION_TYPE_EDIT_STATE_CONTENT
      TARGET_TYPE_EXPLORATION "exp1" (2 ^ 63) STATUS_IN_REVIEW "author_3"
      (Some "reviewer_3") (JDict []) test_score_category
      "exploration.exp1.thread_6" test_now setUp
    = (inl WriteError, setUp).
Proof. repeat apply conj; reflexivity. Qed.

(** C2, counterexample: a suggestion in review whose age equals the
    threshold is not returned; with threshold 0, one written at the very
    instant of the call is not returned either. *)
Lemma stale_at_threshold_not_returned :
  one_in_review !! "exploration.exp1.thread_1"
  = Some (in_review_suggestion "author_1" 0)
  ∧ status (in_review_suggestion "author_1" 0) = STATUS_IN_REVIEW
  ∧ (timedelta 7 0 0 0 - last_updated (in_review_suggestion "author_1" 0)
     >= THRESHOLD_TIME_BEFORE_ACCEPT_IN_MSECS * 1000)%Z
  ∧ get_all_stale_suggestions unicode_values
      THRESHOLD_TIME_BEFORE_ACCEPT_IN_MSECS (timedelta 7 0 0 0) one_in_review
    = (inr [], one_in_review)
  ∧ get_all_stale_suggestions unicode_values 0 0 one_in_review
    = (inr [], one_in_review).
Proof. repeat split; by vm_compute. Qed.

(** C3, instance: the filter list of the tests with [invalid_field] in
    third place. *)
Lemma query_suggestions_disallowed_field_witness :
  Exists (λ fv : string * string, fv.1 ∉ ALLOWED_QUERY_FIELDS)
         queries_with_invalid_field
  ∧ ∃ pre field value post,
      queries_with_invalid_field = pre ++ ((field, value) :: post)
      ∧ Forall (λ fv : string * string, fv.1 ∈ ALLOWED_QUERY_FIELDS) pre
      ∧ (field ∉ ALLOWED_QUERY_FIELDS)
      ∧ query_suggestions 1000 unicode_values queries_with_invalid_field
          setUp
        = (inl (if decide (Forall (λ fv : string * string,
                                     accepted_value unicode_values fv.1 fv.2)
                                  pre)
                then (InvalidField field) else BadValueError),
           setUp).
Proof.
  assert (Exists (λ fv : string * string, fv.1 ∉ ALLOWED_QUERY_FIELDS)
                 queries_with_invalid_field) as Hex by compute_done.
  split; [exact Hex|].
  exact (query_suggestions_disallowed_field 1000 unicode_values
           queries_with_invalid_field setUp Hex).
Defined.

(** C3, counterexample: a disallowed field after an allowed field whose
    value the field does not accept, a suggestion type outside the choices
    or an author id of 1501 bytes: the query fails with the store's
    BadValueError, not with InvalidField. *)
Lemma disallowed_field_after_bad_value :
  ("invalid_field" ∉ ALLOWED_QUERY_FIELDS)
  ∧ query_suggestions 1000 unicode_values
      [("suggestion_type", "invalid_suggestion_type");
       ("invalid_field", "value")] setUp
    = (inl BadValueError, setUp)
  ∧ query_suggestions 1000 unicode_values
      [("author_id", long_value); ("invalid_field", "value")] setUp
    = (inl BadValueError, setUp).
Proof. split; [compute_done|split; reflexivity]. Qed.

(** C4, instance: in the store of the tests, asking for the score category
    of the tests on behalf of author_2 returns the one suggestion in review,
    which is by author_1. *)
Lemma get_in_review_suggestions_in_score_categories_witness :
  ∃ r, get_in_review_suggestions_in_score_categories 1000 unicode_values
         [test_score_category] "author_2" setUp = (inr r, setUp)
       ∧ selects (Some 1000) (reviewable [test_score_category] "author_2")
           setUp r.
Proof.
  destruct (proj1 (get_in_review_suggestions_in_score_categories_spec
                     1000 unicode_values)
              [test_score_category] "author_2" setUp) as (r & Hr & Hsel & _).
  - discriminate.
  - compute_done.
  - compute_done.
  - exists r. split; [exact Hr|exact Hsel].
Defined.

(** C4, counterexample: with a user id of 1501 bytes, or with a category
    of 1501 bytes, the call raises the store's BadValueError, although the
    list of categories is not empty. *)
Lemma reviewable_by_category_long_value :
  get_in_review_suggestions_in_score_categories 1000 unicode_values
    [test_score_category] long_value setUp
  = (inl BadValueError, setUp)
  ∧ get_in_review_suggestions_in_score_categories 1000 unicode_values
      [long_value] "author_2" setUp
    = (inl BadValueError, setUp).
Proof. split; reflexivity. Qed.

(** C6, counterexample: with three suggestions in review by one author and
    a query limit of two, the generic query stops at two, but the stale
    suggestions and the export are all three; and no number bounds the
    stale suggestions of every store. *)
Lemma stale_and_export_exceed_limit :
  (length (returned (query_suggestions 2 unicode_values []
                       (many_suggestions 3))) = 2
   ∧ length (returned
               (get_all_stale_suggestions unicode_values
                  THRESHOLD_TIME_BEFORE_ACCEPT_IN_MSECS
                  (timedelta 8 0 0 0) (many_suggestions 3))) = 3
   ∧ ∃ d, export_data unicode_values "author_1" (many_suggestions 3)
          = (inr d, many_suggestions 3) ∧ size d = 3)
  ∧ ¬ ∃ limit, ∀ st : Datastore,
        length (returned
                  (get_all_stale_suggestions unicode_values
                     THRESHOLD_TIME_BEFORE_ACCEPT_IN_MSECS
                     (timedelta 8 0 0 0) st)) ≤ limit.
Proof.
  split.
  - split; [by vm_compute|]. split; [by vm_compute|].
    eexists. split; [reflexivity|]. by vm_compute.
  - intros [limit Hbound]. specialize (Hbound (many_suggestions (S limit))).
    rewrite many_suggestions_stale in Hbound; [lia|by vm_compute].
Qed.

(** C7, instance: the export of author_2 in the store of the tests holds
    the three suggestions author_2 wrote. *)
Lemma export_data_spec_witness :
  ∃ d, export_data unicode_values "author_2" setUp = (inr d, setUp)
       ∧ size d = 3.
Proof.
  destruct (proj1 (export_data_spec unicode_values "author_2" setUp))
    as (d & Hd & _ & Hsize & _).
  - compute_done.
  - exists d. split; [exact Hd|]. rewrite Hsize. reflexivity.
Defined.

(** C7, counterexample: the export for a user id of 1501 bytes raises the
    store's BadValueError. *)
Lemma export_data_long_user_id :
  export_data unicode_values long_value setUp = (inl BadValueError, setUp).
Proof. reflexivity. Qed.

(** C8, instance: the query of the tests by target, author and status. *)
Lemma query_suggestions_conjunction_witness :
  ∃ r, query_suggestions 1000 unicode_values queries_by_target_author_status
         setUp
       = (inr r, setUp)
       ∧ selects (Some 1000) (satisfies queries_by_target_author_status)
           setUp r.
Proof.
  destruct (proj1 (query_suggestions_conjunction 1000 unicode_values)
              queries_by_target_author_status setUp) as (r & Hr & Hsel & _).
  - compute_done.
  - compute_done.
  - exists r. split; [exact Hr|exact Hsel].
Defined.

(** C8, counterexample: the field is allowed, the value is not one the
    field accepts, a suggestion type outside the choices or an author id
    of 1501 bytes: the query raises instead of returning the matching
    suggestions. *)
Lemma allowed_field_bad_value_fails :
  "suggestion_type" ∈ ALLOWED_QUERY_FIELDS
  ∧ "author_id" ∈ ALLOWED_QUERY_FIELDS
  ∧ query_suggestions 1000 unicode_values
      [("suggestion_type", "invalid_suggestion_type")] setUp
    = (inl BadValueError, setUp)
  ∧ query_suggestions 1000 unicode_values [("author_id", long_value)] setUp
    = (inl BadValueError, setUp).
Proof. split; [compute_done|]. split; [compute_done|]. split; reflexivity. Qed.

(** C9, counterexample: as in the tests, a suggestion is created with the
    score category [category1], whose first component is not a score
    type. *)
Lemma create_accepts_any_score_category :
  (create unicode_values no_refusal SUGGESTION_TYPE_EDIT_STATE_CONTENT
     TARGET_TYPE_EXPLORATION "exp1" 1 STATUS_IN_REVIEW "author_3"
     (Some "reviewer_2") (JDict []) "category1"
     "exploration.exp1.thread_6" test_now setUp).1 = inr tt
  ∧ (λ e : StoredSuggestion, score_category e)
      <$> (create unicode_values no_refusal SUGGESTION_TYPE_EDIT_STATE_CONTENT
             TARGET_TYPE_EXPLORATION "exp1" 1 STATUS_IN_REVIEW "author_3"
             (Some "reviewer_2") (JDict []) "category1"
             "exploration.exp1.thread_6" test_now setUp).2
          !! "exploration.exp1.thread_6"
    = Some "category1"
  ∧ score_type_of "category1" = "category1"
  ∧ ("category1" ∉ SCORE_TYPE_CHOICES).
Proof. repeat split; try by vm_compute. compute_done. Qed.

(** C9, instance: the score category of the tests starts with the score
    type it was built from. *)
Lemma score_category_shape_witness :
  score_type_of test_score_category = SCORE_TYPE_TRANSLATION.
Proof.
  apply (proj1 (proj2 (proj2
                  (score_category_shape unicode_values no_refusal)))
           SCORE_TYPE_TRANSLATION "English").
  compute_done.
Defined.

(** C10, instance: the query of the tests, with its filters in reverse
    order. *)
Lemma query_suggestions_permutation_witness :
  Forall (λ fv : string * string, fv.1 ∈ ALLOWED_QUERY_FIELDS)
         queries_by_target_author_status
  ∧ queries_by_target_author_status
    ≡ₚ reverse queries_by_target_author_status
  ∧ query_suggestions 1000 unicode_values
      (reverse queries_by_target_author_status) setUp
    = query_suggestions 1000 unicode_values queries_by_target_author_status
        setUp.
Proof.
  assert (Forall (λ fv : string * string, fv.1 ∈ ALLOWED_QUERY_FIELDS)
                 queries_by_target_author_status) as Hallowed
    by compute_done.
  assert (queries_by_target_author_status
          ≡ₚ reverse queries_by_target_author_status) as Hperm
    by (symmetry; apply reverse_Permutation).
  split; [exact Hallowed|]. split; [exact Hperm|].
  exact (query_suggestions_permutation 1000 unicode_values
           queries_by_target_author_status
           (reverse queries_by_target_author_status) setUp Hallowed Hperm).
Defined.

(** The branch names of the script's docstring, and some versions. *)
Example branch_names_of_the_docstring :
  NEW_BRANCH_NAME "release" "hotfix" "2.5.3" 0 = "release-2.5.3"
  ∧ NEW_BRANCH_NAME "release" "hotfix" "2.5.3" 1 = "release-2.5.3-hotfix-1"
  ∧ new_version_type "2.5.3" = inr "2.5.3"
  ∧ new_version_type "2.5" = inl ArgumentTypeError
  ∧ new_version_type "12.5.3" = inl ArgumentTypeError
  ∧ _verify_target_version_is_consistent_with_latest_released_version
      200 "v2.5.3" "2.5.4" = inr tt
  ∧ _verify_target_version_is_consistent_with_latest_released_version
      200 "v2.5.3" "2.5.5" = inl AssertionError
  ∧ _verify_target_version_is_consistent_with_latest_released_version
      200 "release-2.5.3" "2.5.4" = inl UnparsableLatestRelease.
Proof. repeat split; by vm_compute. Qed.

(** ** Instances of the further properties *)

Lemma create_thread_6 :
  create unicode_values no_refusal SUGGESTION_TYPE_EDIT_STATE_CONTENT
    TARGET_TYPE_EXPLORATION "exp1" 1 STATUS_IN_REVIEW "author_3"
    (Some "reviewer_3") (JDict []) test_score_category
    "exploration.exp1.thread_6" test_now setUp
  = (inr tt, after_thread_6).
Proof. reflexivity. Defined.

(** X1, instance: author_1 is looked up in the store of the tests. *)
Lemma has_reference_to_user_id_spec_witness :
  ∃ b, has_reference_to_user_id unicode_values "author_1" setUp
       = (inr b, setUp)
       ∧ (b = true
          ↔ ∃ id (e : StoredSuggestion),
              setUp !! id = Some e
              ∧ (author_id e = "author_1"
                 ∨ final_reviewer_id e = Some "author_1")).
Proof.
  apply (proj1 (has_reference_to_user_id_spec unicode_values "author_1"
                  setUp)).
  compute_done.
Defined.

(** X2, instance: after the sixth creation of the tests, its author and
    its reviewer are referenced. *)
Lemma create_adds_references_witness :
  has_reference_to_user_id unicode_values "author_3" after_thread_6
  = (inr true, after_thread_6)
  ∧ has_reference_to_user_id unicode_values "reviewer_3" after_thread_6
    = (inr true, after_thread_6).
Proof.
  destruct (create_adds_references _ _ _ _ _ _ _ _ _ _ _ _ _ _ _
              create_thread_6)
    as (Hauthor & Hreviewer & _).
  split; [exact Hauthor|]. by apply Hreviewer.
Defined.

(** X3, instance: the suggestions of the tests that author_2 may review. *)
Lemma get_in_review_suggestions_of_suggestion_type_spec_witness :
  ∃ r, get_in_review_suggestions_of_suggestion_type 1000 unicode_values
         SUGGESTION_TYPE_EDIT_STATE_CONTENT "author_2" setUp
       = (inr r, setUp)
       ∧ selects (Some 1000)
           (reviewable_of_type SUGGESTION_TYPE_EDIT_STATE_CONTENT "author_2")
           setUp r.
Proof.
  destruct (proj1 (get_in_review_suggestions_of_suggestion_type_spec 1000
                     unicode_values SUGGESTION_TYPE_EDIT_STATE_CONTENT
                     "author_2" setUp)) as (r & Hr & Hsel & _).
  - compute_done.
  - compute_done.
  - exists r. split; [exact Hr|exact Hsel].
Defined.

(** X4, instance: the suggestions of the tests that author_1 has in
    review. *)
Lemma get_user_created_suggestions_of_suggestion_type_spec_witness :
  ∃ r, get_user_created_suggestions_of_suggestion_type 1000 unicode_values
         SUGGESTION_TYPE_EDIT_STATE_CONTENT "author_1" setUp
       = (inr r, setUp)
       ∧ selects (Some 1000)
           (created_of_type SUGGESTION_TYPE_EDIT_STATE_CONTENT "author_1")
           setUp r.
Proof.
  destruct (proj1 (get_user_created_suggestions_of_suggestion_type_spec 1000
                     unicode_values SUGGESTION_TYPE_EDIT_STATE_CONTENT
                     "author_1" setUp)) as (r & Hr & Hsel & _).
  - compute_done.
  - compute_done.
  - exists r. split; [exact Hr|exact Hsel].
Defined.

(** X5, instance: the first thread of the tests, in review, is returned
    to author_2 as reviewer or as author. *)
Lemma reviewable_and_created_partition_witness :
  ("exploration.exp1.thread_1",
   test_suggestion STATUS_IN_REVIEW "author_1" "reviewer_1")
  ∈ returned (get_in_review_suggestions_of_suggestion_type 1000
                unicode_values SUGGESTION_TYPE_EDIT_STATE_CONTENT "author_2"
                setUp)
  ∨ ("exploration.exp1.thread_1",
     test_suggestion STATUS_IN_REVIEW "author_1" "reviewer_1")
    ∈ returned (get_user_created_suggestions_of_suggestion_type 1000
                  unicode_values SUGGESTION_TYPE_EDIT_STATE_CONTENT
                  "author_2" setUp).
Proof.
  apply (proj2 (reviewable_and_created_partition 1000 unicode_values
                  SUGGESTION_TYPE_EDIT_STATE_CONTENT "author_2" setUp)).
  - compute_done.
  - compute_done.
  - compute_done.
  - reflexivity.
  - reflexivity.
  - reflexivity.
Defined.

(** X7, instance: the score category of the sixth creation is in use
    afterwards. *)
Lemma create_adds_score_category_witness :
  test_score_category ∈ returned (get_all_score_categories after_thread_6).
Proof.
  apply (create_adds_score_category _ _ _ _ _ _ _ _ _ _ _ _ _ _ _
           create_thread_6 test_score_category).
  by left.
Defined.

(** X10, instance: accepted and rejected at once. *)
Lemma query_suggestions_contradictory_filters_witness :
  query_suggestions 1000 unicode_values
    [("status", STATUS_ACCEPTED); ("status", STATUS_REJECTED)] setUp
  = (inr [], setUp).
Proof.
  apply (query_suggestions_contradictory_filters 1000 unicode_values
           [("status", STATUS_ACCEPTED); ("status", STATUS_REJECTED)]
           "status" STATUS_ACCEPTED STATUS_REJECTED setUp).
  - compute_done.
  - by left.
  - right. by left.
  - discriminate.
Defined.

(** X11, instance: the query of the tests with every filter given twice. *)
Lemma query_suggestions_same_pairs_witness :
  query_suggestions 1000 unicode_values
    (queries_by_target_author_status ++ queries_by_target_author_status) setUp
  = query_suggestions 1000 unicode_values queries_by_target_author_status
      setUp.
Proof.
  apply (query_suggestions_same_pairs 1000 unicode_values
           queries_by_target_author_status).
  - compute_done.
  - intros fv. rewrite elem_of_app. tauto.
Defined.

(** X12, instance: a category given twice: as many suggestions are
    returned as when it is given once. *)
Lemma score_categories_as_set_witness :
  length (returned
            (get_in_review_suggestions_in_score_categories 1000
               unicode_values [test_score_category; test_score_category]
               "author_2" setUp))
  = length (returned
              (get_in_review_suggestions_in_score_categories 1000
                 unicode_values [test_score_category] "author_2" setUp)).
Proof.
  apply (score_categories_as_set 1000 unicode_values [test_score_category]
           [test_score_category; test_score_category] "author_2" setUp).
  - discriminate.
  - intros c. rewrite !elem_of_cons. tauto.
Defined.

(** X13, instance: the suggestion written at time 0 is stale two seconds
    later under a threshold of one second, hence also three seconds later
    under no threshold. *)
Lemma stale_monotone_witness :
  ("exploration.exp1.thread_1", in_review_suggestion "author_1" 0)
  ∈ returned (get_all_stale_suggestions unicode_values 0 (timedelta 0 3 0 0)
                one_in_review).
Proof.
  apply (stale_monotone unicode_values 0 1000 (timedelta 0 3 0 0)
           (timedelta 0 2 0 0) one_in_review).
  - by vm_compute.
  - by vm_compute.
  - assert (returned (get_all_stale_suggestions unicode_values 1000
                        (timedelta 0 2 0 0) one_in_review)
            = [("exploration.exp1.thread_1",
                in_review_suggestion "author_1" 0)]) as -> by by vm_compute.
    by left.
Defined.

(** X14, instance: the suggestion of the sixth creation is stale one
    microsecond later under a zero threshold. *)
Lemma create_then_stale_witness :
  ("exploration.exp1.thread_6", thread_6)
  ∈ returned (get_all_stale_suggestions unicode_values 0 (test_now + 1)
                after_thread_6).
Proof.
  apply (proj1 (create_then_stale _ _ _ _ _ _ _ _ _ _ _ _ _ _ _
                  create_thread_6 0%Z (test_now + 1)%Z) thread_6).
  split; [by vm_compute|]. split; [done|]. by vm_compute.
Defined.

(** X15, instance: the export of author_3 gains the entry of the sixth
    thread. *)
Lemma create_then_export_witness :
  ∃ d d',
    export_data unicode_values "author_3" setUp = (inr d, setUp)
    ∧ export_data unicode_values "author_3" after_thread_6
      = (inr d', after_thread_6)
    ∧ d' = <["exploration.exp1.thread_6" :=
               list_to_map
                 [("suggestion_type",
                   JString SUGGESTION_TYPE_EDIT_STATE_CONTENT);
                  ("target_type", JString TARGET_TYPE_EXPLORATION);
                  ("target_id", JString "exp1");
                  ("target_version_at_submission", JInt 1);
                  ("status", JString STATUS_IN_REVIEW);
                  ("change_cmd", JDict [])]]> d.
Proof.
  destruct (create_then_export _ _ _ _ _ _ _ _ _ _ _ _ _ _ _ create_thread_6
              "author_3") as (d & d' & Hd & Hd' & Heq).
  - compute_done.
  - exists d, d'. split; [exact Hd|]. split; [exact Hd'|]. exact Heq.
Defined.

(** X17, instance: the second hotfix of 2.5.3 is cut from the first. *)
Lemma hotfix_is_cut_from_previous_branch_witness :
  branch_to_cut_from "release" "hotfix" "2.5.3" 2
  = NEW_BRANCH_NAME "release" "hotfix" "2.5.3" (2 - 1)
  ∧ branch_to_check "release" "hotfix" "2.5.3" 2
    = branch_to_cut_from "release" "hotfix" "2.5.3" 2.
Proof.
  apply (hotfix_is_cut_from_previous_branch "release" "hotfix" "2.5.3" 2).
  discriminate.
Defined.

(** X20, instance: after release 2.5.9 the target 2.6.0 passes, and it is
    the next minor version with patch 0. *)
Lemma target_version_dead_ends_witness :
  _verify_target_version_is_consistent_with_latest_released_version
    200 "v2.5.9" "2.6.0" = inr tt
  ∧ ∃ minor' rest',
      "2.6.0" = dotted "2" minor' "0" rest'
      ∧ int_of_digit minor' = (int_of_digit "5" + 1)%Z.
Proof.
  assert (_verify_target_version_is_consistent_with_latest_released_version
            200 (String "v" (dotted "2" "5" "9" EmptyString)) "2.6.0"
          = inr tt) as Hrun by by vm_compute.
  split; [exact Hrun|].
  destruct (target_version_dead_ends 200 "2" "5" "9" EmptyString "2.6.0" Hrun)
    as (_ & Hpatch & _).
  by apply Hpatch.
Defined.
